(** * usePhoneClipboard: the clipboard synchronisation hook of team-roster

    A shallow embedding of
    [packages/roster/src/hooks/usePhoneClipboard.ts]: the values one render
    of the hook closes over, the debounced auto-update effect with its
    timer and its two refs, the manual [copyPhoneNumbers] action and
    [getPreview].

    The hook's collaborators ([useClipboard], [useClipboardToast], the
    phone formatter, React's scheduler and the browser timers) are not
    part of the file.  Their calls are recorded in a trace of observable
    effects and their answers come in with the events that drive the
    model. *)

From stdpp Require Import base tactics option numbers list strings gmap pretty.
From Stdlib Require Import ZArith QArith Qcanon Lia.

Local Open Scope Z_scope.

(** ** JavaScript values the hook handles *)

Module Js.

(** A JS string, one character per code unit. *)
Definition length (s : string) : Z := Z.of_nat (String.length s).

(** [!s] for a string: only the empty string is falsy. *)
Definition falsy (s : string) : bool :=
  match s with EmptyString => true | String _ _ => false end.

(** [s.substring(a, b)] for integer arguments: both ends are clamped
    to [0 .. s.length] and swapped when they come in the wrong order. *)
Definition substring (s : string) (a b : Z) : string :=
  let clamp x := Z.max 0 (Z.min x (length s)) in
  let lo := Z.min (clamp a) (clamp b) in
  let hi := Z.max (clamp a) (clamp b) in
  String.substring (Z.to_nat lo) (Z.to_nat (hi - lo)) s.

(** [a || b] on [string | null]: [null] and [''] give way to [b]. *)
Definition or_else (a : option string) (b : string) : string :=
  match a with
  | Some s => if falsy s then b else s
  | None => b
  end.

(** What a [throw] can carry: an [Error] with its message, or any other
    value. *)
Inductive thrown : Type :=
| ErrorObject (message : string)
| OtherValue (shown : string).

End Js.

(** ** getPreview *)

(** [getPreview(maxLength = 100)] over the render's
    [formattedPhoneNumbers].  [None] is the omitted argument. *)
Definition getPreview (formattedPhoneNumbers : string)
    (maxLength_arg : option Z) : string :=
  let maxLength := default 100 maxLength_arg in
  if Js.falsy formattedPhoneNumbers then ""
  else if Js.length formattedPhoneNumbers <=? maxLength
       then formattedPhoneNumbers
       else Js.substring formattedPhoneNumbers 0 (maxLength - 3) +:+ "...".

(** ** Data of the collaborators *)

(** Modelled from the spec: the enum [ClipboardErrorType] is declared in
    [hooks/useClipboardError.ts], which is not among the sources.  The hook
    names [PERMISSION_DENIED] and [NOT_SUPPORTED]; the two remaining kinds
    are the spec's [Transient] and [Unknown]. *)
Inductive ClipboardErrorType : Type :=
| PERMISSION_DENIED
| NOT_SUPPORTED
| TRANSIENT
| UNKNOWN.

(** [ClipboardError], as far as the hook reads it. *)
Record ClipboardError : Type := {
  err_type : ClipboardErrorType;
  err_message : string;
  err_suggestedAction : string;
}.

(** What [useClipboard()] shows of its state: the fields the hook reads. *)
Record Clipboard : Type := {
  isSupported : bool;
  isLoading : bool;
  error : option string;
  detailedError : option ClipboardError;
}.

(** How one [await clipboard.copyToClipboard(text)] ends, and what the
    captured [clipboard] object shows when the code reads it afterwards. *)
Inductive WriteOutcome : Type :=
| Returned (success : bool)
| Threw (e : Js.thrown).

Record Settlement : Type := {
  outcome : WriteOutcome;
  seen : Clipboard;
}.

(** A [Musician], as far as the hook reads it. *)
Record Musician : Type := {
  id : string;
  phone : option string;
}.

(** Two rows of the roster can be compared. *)
#[export] Instance musician_eq_dec : EqDecision Musician.
Proof. solve_decision. Defined.

Record PhoneClipboardStats : Type := {
  totalSelected : nat;
  validPhones : nat;
  invalidPhones : nat;
  validPercentage : Qc;
}.

(** The result object of [copyPhoneNumbers]. *)
Record CopyResult : Type := {
  success : bool;
  message : string;
  phoneCount : nat;
}.

(** Calls on the toast hook. *)
Inductive ToastVariant : Type :=
| copySuccess (count : nat) (text : string).

Inductive ToastCall : Type :=
| showToast (base : ToastVariant) (duration : Z) (animation : string)
| showCopyLoading
| showCopySuccess (count : nat) (text : string)
| showCopyError (title detail : string)
| showPermissionDenied
| showNotSupported.

(** Everything the hook does to the outside, in the order it does it. *)
Inductive Obs : Type :=
| Toast (call : ToastCall)
| CopyToClipboard (text : string)
| ConsoleWarn (label : string) (e : Js.thrown)
| ClearSelection.

(** ** One render of the hook *)

(** The values a render computes and its closures capture. *)
Record Render : Type := {
  autoClearSelection : bool;
  clearSelection : bool;   (* is the optional callback there *)
  successMessage : nat -> string;
  autoUpdateClipboard : bool;
  autoUpdateMinSelection : Z;
  autoUpdateDebounce : Z;
  selectedMusicians : list Musician;
  formattedPhoneNumbers : string;
  phoneStats : PhoneClipboardStats;
  clipboard : Clipboard;
}.

(** The default of [options.successMessage]. *)
Definition successMessage_default (count : nat) : string :=
  "Copied " +:+ pretty count +:+ " phone number"
    +:+ (if bool_decide (count ≠ 1%nat) then "s" else "") +:+ " to clipboard".

(** What [getPhoneFormatStats] returns, as far as the hook reads it. *)
Record PhoneFormatStats : Type := {
  valid : nat;
  invalid : nat;
  stats_validPercentage : Qc;
}.

Section Deriver.

(** The phone formatter ([utils/phoneFormatter]) is an external
    collaborator: its option type and its two functions are taken as
    given. *)
Variable PhoneFormatOptions : Type.
Variable formatPhoneNumbersFromObjects :
  list Musician -> PhoneFormatOptions -> string.

Variable getPhoneFormatStats : list (option string) -> PhoneFormatStats.

(** [UsePhoneClipboardOptions]: every own field is optional. *)
Record UsePhoneClipboardOptions : Type := {
  opt_autoClearSelection : option bool;
  opt_successMessage : option (nat -> string);
  opt_autoUpdateClipboard : option bool;
  opt_autoUpdateMinSelection : option Z;
  opt_autoUpdateDebounce : option Z;
  formatOptions : PhoneFormatOptions;
}.

(** The body of [usePhoneClipboard] up to its memoised values;
    [the_clipboard] is what [useClipboard()] returned for this render. *)
Definition usePhoneClipboard (musicians : list Musician)
    (selectedIds : gset string) (clearSelection_given : bool)
    (options : UsePhoneClipboardOptions) (the_clipboard : Clipboard)
    : Render :=
  let selected :=
    filter (λ musician, id musician ∈ selectedIds) musicians in
  let stats := getPhoneFormatStats (phone <$> selected) in
  {| autoClearSelection := default false (opt_autoClearSelection options);
     clearSelection := clearSelection_given;
     successMessage :=
       default successMessage_default (opt_successMessage options);
     autoUpdateClipboard := default false (opt_autoUpdateClipboard options);
     autoUpdateMinSelection := default 1 (opt_autoUpdateMinSelection options);
     autoUpdateDebounce := default 300 (opt_autoUpdateDebounce options);
     selectedMusicians := selected;
     formattedPhoneNumbers :=
       formatPhoneNumbersFromObjects selected (formatOptions options);
     phoneStats :=
       {| totalSelected := length selected;
          validPhones := valid stats;
          invalidPhones := invalid stats;
          validPercentage := stats_validPercentage stats |};
     clipboard := the_clipboard |}.

End Deriver.

(** [canCopy] *)
Definition canCopy (r : Render) : bool :=
  bool_decide (0 < length (selectedMusicians r))%nat
  && bool_decide (0 < validPhones (phoneStats r))%nat
  && negb (isLoading (clipboard r)).

(** ** The hook instance and its surroundings *)

(** A timer handle: browsers hand out integers greater than zero (Node an
    object), so a handle held in [debounceTimeoutRef.current] is truthy. *)
Definition TimerId : Type := positive.

(** A pending [setTimeout]: the only callback the hook ever schedules is
    the auto-update one, so a timer keeps the render it closes over. *)
Record Timer : Type := {
  timer_id : TimerId;
  due : nat;
  armed_by : Render;
}.

(** Who is waiting on a write of the clipboard. *)
Inductive Origin : Type := Automatic | Manual.

Record Pending : Type := {
  origin : Origin;
  closure : Render;
}.

Record Hook : Type := {
  (* the two refs *)
  debounceTimeoutRef : option TimerId;
  lastUpdatedRef : string;
  (* React: has the last run of the effect returned a cleanup *)
  cleanup : bool;
  (* the browser *)
  clock : nat;
  next_timer : TimerId;
  timers : list Timer;
  (* writes awaited, oldest first *)
  inflight : list Pending;
  (* what the outside has seen so far, oldest first *)
  trace : list Obs;
  (* results the promises of [copyPhoneNumbers] resolved to, oldest first *)
  results : list CopyResult;
}.

(** [useRef<NodeJS.Timeout>()] and [useRef<string>('')] on mount. *)
Definition mount : Hook :=
  {| debounceTimeoutRef := None; lastUpdatedRef := ""; cleanup := false;
     clock := 0%nat; next_timer := 1%positive; timers := []; inflight := [];
     trace := []; results := [] |}.

Definition with_debounceTimeoutRef (v : option TimerId) (s : Hook) :=
  {| debounceTimeoutRef := v; lastUpdatedRef := lastUpdatedRef s;
     cleanup := cleanup s; clock := clock s; next_timer := next_timer s;
     timers := timers s; inflight := inflight s; trace := trace s;
     results := results s |}.

Definition with_lastUpdatedRef (v : string) (s : Hook) :=
  {| debounceTimeoutRef := debounceTimeoutRef s; lastUpdatedRef := v;
     cleanup := cleanup s; clock := clock s; next_timer := next_timer s;
     timers := timers s; inflight := inflight s; trace := trace s;
     results := results s |}.

Definition with_cleanup (v : bool) (s : Hook) :=
  {| debounceTimeoutRef := debounceTimeoutRef s;
     lastUpdatedRef := lastUpdatedRef s;
     cleanup := v; clock := clock s; next_timer := next_timer s;
     timers := timers s; inflight := inflight s; trace := trace s;
     results := results s |}.

Definition with_clock (v : nat) (s : Hook) :=
  {| debounceTimeoutRef := debounceTimeoutRef s;
     lastUpdatedRef := lastUpdatedRef s;
     cleanup := cleanup s; clock := v; next_timer := next_timer s;
     timers := timers s; inflight := inflight s; trace := trace s;
     results := results s |}.

Definition with_timers (next : TimerId) (v : list Timer) (s : Hook) :=
  {| debounceTimeoutRef := debounceTimeoutRef s;
     lastUpdatedRef := lastUpdatedRef s;
     cleanup := cleanup s; clock := clock s; next_timer := next;
     timers := v; inflight := inflight s; trace := trace s;
     results := results s |}.

Definition with_inflight (v : list Pending) (s : Hook) :=
  {| debounceTimeoutRef := debounceTimeoutRef s;
     lastUpdatedRef := lastUpdatedRef s;
     cleanup := cleanup s; clock := clock s; next_timer := next_timer s;
     timers := timers s; inflight := v; trace := trace s;
     results := results s |}.

Definition with_trace (v : list Obs) (s : Hook) :=
  {| debounceTimeoutRef := debounceTimeoutRef s;
     lastUpdatedRef := lastUpdatedRef s;
     cleanup := cleanup s; clock := clock s; next_timer := next_timer s;
     timers := timers s; inflight := inflight s; trace := v;
     results := results s |}.

Definition with_results (v : list CopyResult) (s : Hook) :=
  {| debounceTimeoutRef := debounceTimeoutRef s;
     lastUpdatedRef := lastUpdatedRef s;
     cleanup := cleanup s; clock := clock s; next_timer := next_timer s;
     timers := timers s; inflight := inflight s; trace := trace s;
     results := v |}.

(** ** Code over the instance: state, and exceptions for [try]/[catch] *)

Inductive Completion (A : Type) : Type :=
| Normal (a : A)
| Abrupt (e : Js.thrown).
Arguments Normal {A} a.
Arguments Abrupt {A} e.

Definition M (A : Type) : Type := Hook -> Completion A * Hook.

Definition ret {A} (a : A) : M A := λ s, (Normal a, s).

Definition bind {A B} (m : M A) (k : A -> M B) : M B :=
  λ s, match m s with
       | (Normal a, s') => k a s'
       | (Abrupt e, s') => (Abrupt e, s')
       end.

Definition throw {A} (e : Js.thrown) : M A := λ s, (Abrupt e, s).

Definition try_catch {A} (body : M A) (handler : Js.thrown -> M A) : M A :=
  λ s, match body s with
       | (Normal a, s') => (Normal a, s')
       | (Abrupt e, s') => handler e s'
       end.

Definition get {A} (field : Hook -> A) : M A := λ s, (Normal (field s), s).
Definition modify (f : Hook -> Hook) : M () := λ s, (Normal (), f s).


#[export] Instance hook_ret : MRet M := @ret.
#[export] Instance hook_bind : MBind M := λ A B k m, bind m k.

(** The state a computation leaves, and its value. *)
Definition exec {A} (m : M A) (s : Hook) : Hook := (m s).2.
Definition eval {A} (m : M A) (s : Hook) : Completion A := (m s).1.

(** *** Primitives *)

Definition emit (o : Obs) : M () := modify (λ s, with_trace (trace s ++ [o]) s).
Definition toast (call : ToastCall) : M () := emit (Toast call).

(** The longest delay a timer holds, in milliseconds: [2^31 - 1]. *)
Definition TIMEOUT_MAX : Z := 2147483647.

(** The delay a timer really runs with.  The runtime keeps a delay as a
    32-bit signed integer.  Node runs every delay outside
    [1 .. TIMEOUT_MAX] as 1 ms, which is the rule taken here.  A browser
    wraps the delay modulo [2^32] and runs a negative one as 0 ms; on the
    clock of the model, which moves in whole milliseconds, that is the same
    as 1 ms, so the two agree for every delay from [-2^31] to [2^32 - 1]. *)
Definition timer_delay (delay : Z) : nat :=
  if (1 <=? delay) && (delay <=? TIMEOUT_MAX) then Z.to_nat delay else 1%nat.

(** [setTimeout(callback, delay)]: a fresh handle, due after the delay the
    timer runs with. *)
Definition setTimeout (r : Render) (delay : Z) : M TimerId :=
  λ s, let h := next_timer s in
       (Normal h,
        with_timers (Pos.succ h)
          (timers s ++ [{| timer_id := h; due := clock s + timer_delay delay;
                           armed_by := r |}]) s).

(** [clearTimeout(h)]: the timer is gone if it was still pending. *)
Definition clearTimeout (h : TimerId) : M () :=
  modify (λ s, with_timers (next_timer s)
                 (filter (λ t, timer_id t ≠ h) (timers s)) s).

(** [await clipboard.copyToClipboard(..)] once the write has settled. *)
Definition awaited (o : WriteOutcome) : M bool :=
  match o with
  | Returned b => ret b
  | Threw e => throw e
  end.

(** ** The auto-update effect *)

(** [if (debounceTimeoutRef.current) clearTimeout(debounceTimeoutRef.current)],
    as it stands in the effect body and in its cleanup. *)
Definition clear_debounce : M () :=
  h ← get debounceTimeoutRef;
  match h with
  | Some h => clearTimeout h
  | None => ret ()
  end.

(** The body of the [useEffect]; the value tells whether a cleanup was
    returned.  Each [ret false] is one of the early [return;]s. *)
Definition autoUpdate_effect (r : Render) : M bool :=
  if negb (autoUpdateClipboard r) || negb (isSupported (clipboard r))
  then ret false
  else
    clear_debounce;;
    if Z.of_nat (length (selectedMusicians r)) <? autoUpdateMinSelection r
    then ret false
    else if Js.falsy (formattedPhoneNumbers r)
            || bool_decide (validPhones (phoneStats r) = 0%nat)
    then ret false
    else
      last ← get lastUpdatedRef;
      if bool_decide (last = formattedPhoneNumbers r)
      then ret false
      else
        h ← setTimeout r (autoUpdateDebounce r);
        modify (with_debounceTimeoutRef (Some h));;
        ret true.

(** The timer callback up to its [await]: the write is requested. *)
Definition autoUpdate_fire (r : Render) : M () :=
  emit (CopyToClipboard (formattedPhoneNumbers r));;
  modify (λ s, with_inflight
                 (inflight s ++ [{| origin := Automatic; closure := r |}]) s).

(** The timer callback from its [await] on. *)
Definition autoUpdate_settle (r : Render) (c : Settlement) : M () :=
  try_catch
    (success ← awaited (outcome c);
     if success : bool
     then
       modify (with_lastUpdatedRef (formattedPhoneNumbers r));;
       toast (showToast
                (copySuccess (validPhones (phoneStats r))
                   (formattedPhoneNumbers r))
                2000 "fade")
     else ret ())
    (λ error,
       emit (ConsoleWarn "Auto-update clipboard failed:" error);;
       match detailedError (seen c) with
       | Some clipboardError =>
           match err_type clipboardError with
           | PERMISSION_DENIED => toast showPermissionDenied
           | NOT_SUPPORTED => toast showNotSupported
           | _ => ret ()
           end
       | None => ret ()
       end).

(** ** copyPhoneNumbers *)

(** Up to the [await]: either an early result, or the write is requested
    and the caller waits. *)
Definition copyPhoneNumbers_start (r : Render) : M (option CopyResult) :=
  if bool_decide (length (selectedMusicians r) = 0%nat)
  then
    toast (showCopyError "No musicians selected"
             "Please select some musicians first");;
    ret (Some {| success := false; message := "No musicians selected";
                 phoneCount := 0 |})
  else if Js.falsy (formattedPhoneNumbers r)
  then
    toast (showCopyError "No valid phone numbers found"
             "Selected musicians don't have valid phone numbers");;
    ret (Some {| success := false;
                 message := "No valid phone numbers found in selection";
                 phoneCount := 0 |})
  else
    toast showCopyLoading;;
    emit (CopyToClipboard (formattedPhoneNumbers r));;
    ret None.

(** From the [await] on. *)
Definition copyPhoneNumbers_settle (r : Render) (c : Settlement)
    : M CopyResult :=
  try_catch
    (success ← awaited (outcome c);
     if success : bool
     then
       let phoneCount := validPhones (phoneStats r) in
       toast (showCopySuccess phoneCount (formattedPhoneNumbers r));;
       (if autoClearSelection r && clearSelection r
        then emit ClearSelection
        else ret ());;
       ret {| success := true; message := successMessage r phoneCount;
              phoneCount := phoneCount |}
     else
       match detailedError (seen c) with
       | Some error =>
           match err_type error with
           | PERMISSION_DENIED => toast showPermissionDenied
           | NOT_SUPPORTED => toast showNotSupported
           | _ => toast (showCopyError (err_message error)
                           (err_suggestedAction error))
           end
       | None => toast (showCopyError "Copy operation failed" "Please try again")
       end;;
       ret {| success := false;
              message := Js.or_else (error (seen c))
                           "Failed to copy to clipboard";
              phoneCount := 0 |})
    (λ error,
       let errorMessage :=
         match error with
         | Js.ErrorObject message => message
         | Js.OtherValue _ => "Unknown error occurred"
         end in
       toast (showCopyError errorMessage "Please try again or copy manually");;
       ret {| success := false; message := errorMessage; phoneCount := 0 |}).

(** One whole call of [copyPhoneNumbers], its write settling as [c]. *)
Definition copyPhoneNumbers (r : Render) (c : Settlement) : M CopyResult :=
  early ← copyPhoneNumbers_start r;
  match early with
  | Some result => ret result
  | None => copyPhoneNumbers_settle r c
  end.

(** ** What drives the instance *)

Inductive Event : Type :=
| Commit (r : Render)   (* React commits a render whose effect dependencies
                           changed: the previous cleanup, then the effect *)
| Unmount               (* React runs the cleanup *)
| Elapse (dt : nat)     (* [dt] ms pass, timers that come due fire *)
| CopyNow (r : Render)  (* the host calls [copyPhoneNumbers] of render [r] *)
| Settle (k : nat) (c : Settlement).
                        (* the [k]-th awaited write settles *)

(** The cleanup closure of the effect, if the last run returned one. *)
Definition run_cleanup : M () :=
  registered ← get cleanup;
  if registered : bool
  then clear_debounce;; modify (with_cleanup false)
  else ret ().

Definition commit (r : Render) : M () :=
  run_cleanup;;
  registered ← autoUpdate_effect r;
  modify (with_cleanup registered).

(** The callbacks of the given timers, one after the other. *)
Fixpoint fire_all (ts : list Timer) : M () :=
  match ts with
  | [] => ret ()
  | t :: ts => autoUpdate_fire (armed_by t);; fire_all ts
  end.

(** One millisecond passes: the timers due by now leave the list and
    run. *)
Definition tick : M () :=
  now ← get (λ s, S (clock s));
  pending ← get timers;
  modify (with_clock now);;
  modify (λ s, with_timers (next_timer s)
                 (filter (λ t, ¬ (due t ≤ now)%nat) pending) s);;
  fire_all (filter (λ t, (due t ≤ now)%nat) pending).

Fixpoint elapse (dt : nat) : M () :=
  match dt with
  | O => ret ()
  | S dt => tick;; elapse dt
  end.

Definition copy_now (r : Render) : M () :=
  early ← copyPhoneNumbers_start r;
  match early with
  | Some result => modify (λ s, with_results (results s ++ [result]) s)
  | None =>
      modify (λ s, with_inflight
                     (inflight s ++ [{| origin := Manual; closure := r |}]) s)
  end.

Definition settle (k : nat) (c : Settlement) : M () :=
  waiting ← get inflight;
  match waiting !! k with
  | None => ret ()
  | Some p =>
      modify (with_inflight (delete k waiting));;
      match origin p with
      | Automatic => autoUpdate_settle (closure p) c
      | Manual =>
          result ← copyPhoneNumbers_settle (closure p) c;
          modify (λ s, with_results (results s ++ [result]) s)
      end
  end.

Definition step (e : Event) : M () :=
  match e with
  | Commit r => commit r
  | Unmount => run_cleanup
  | Elapse dt => elapse dt
  | CopyNow r => copy_now r
  | Settle k c => settle k c
  end.

Definition run (s : Hook) (es : list Event) : Hook :=
  foldl (λ s e, exec (step e) s) s es.

Definition reachable (s : Hook) : Prop := ∃ es, s = run mount es.

(** ** Reading a trace *)

Definition writes (tr : list Obs) : list string :=
  omap (λ o, match o with CopyToClipboard text => Some text | _ => None end) tr.

Definition toasts (tr : list Obs) : list ToastCall :=
  omap (λ o, match o with Toast call => Some call | _ => None end) tr.

(** What a computation adds to the trace. *)
Definition emitted {A} (m : M A) (s : Hook) : list Obs :=
  drop (length (trace s)) (trace (exec m s)).

(** The effect of render [r], run on [s], gets as far as [setTimeout]. *)
Definition arms (s : Hook) (r : Render) : bool :=
  autoUpdateClipboard r && isSupported (clipboard r)
  && negb (Z.of_nat (length (selectedMusicians r)) <? autoUpdateMinSelection r)
  && negb (Js.falsy (formattedPhoneNumbers r))
  && negb (bool_decide (validPhones (phoneStats r) = 0%nat))
  && negb (bool_decide (lastUpdatedRef s = formattedPhoneNumbers r)).

(** The message [copyPhoneNumbers] reports for a caught value. *)
Definition caught_message (e : Js.thrown) : string :=
  match e with
  | Js.ErrorObject message => message
  | Js.OtherValue _ => "Unknown error occurred"
  end.

(** The spec's error kinds that an automatic failure surfaces. *)
Definition actionable (kind : ClipboardErrorType) : bool :=
  match kind with
  | PERMISSION_DENIED | NOT_SUPPORTED => true
  | TRANSIENT | UNKNOWN => false
  end.

(** An outcome that is a failure of the write. *)
Definition failed (o : WriteOutcome) : bool :=
  match o with
  | Returned b => negb b
  | Threw _ => true
  end.

(** ** Invariants of the instance *)

(** Every pending timer is the one [debounceTimeoutRef] holds, and there
    is at most one. *)
Definition one_timer (s : Hook) : Prop :=
  (length (timers s) ≤ 1)%nat
  ∧ ∀ t, t ∈ timers s → debounceTimeoutRef s = Some (timer_id t).

(** A pending timer is always covered by a registered cleanup. *)
Definition covered (s : Hook) : Prop :=
  timers s ≠ [] → cleanup s = true.

(** Whatever waits to be written automatically is a non-empty payload. *)
Definition waiting_ok (s : Hook) : Prop :=
  ∀ p, p ∈ inflight s → origin p = Automatic →
       formattedPhoneNumbers (closure p) ≠ "".

Definition payloads_nonempty (s : Hook) : Prop :=
  (∀ t, t ∈ timers s → formattedPhoneNumbers (armed_by t) ≠ "")
  ∧ waiting_ok s.

(** [s'] has the timer, its ref and its cleanup as [s] has them. *)
Definition timers_untouched (s s' : Hook) : Prop :=
  debounceTimeoutRef s' = debounceTimeoutRef s
  ∧ cleanup s' = cleanup s
  ∧ clock s' = clock s
  ∧ next_timer s' = next_timer s
  ∧ timers s' = timers s.

Definition wf (s : Hook) : Prop :=
  one_timer s ∧ covered s ∧ payloads_nonempty s.

(** The two states a commit can leave: the timer of render [r] armed
    alone, or no timer at all. *)
Definition armed (r : Render) (s : Hook) : Hook :=
  with_cleanup true
    (with_debounceTimeoutRef (Some (next_timer s))
       (with_timers (Pos.succ (next_timer s))
          [{| timer_id := next_timer s;
              due := clock s + timer_delay (autoUpdateDebounce r);
              armed_by := r |}] s)).

Definition disarmed (s : Hook) : Hook :=
  with_cleanup false (with_timers (next_timer s) [] s).

(** What the callbacks of some timers leave behind. *)
Definition fired (ts : list Timer) (s : Hook) : Hook :=
  with_inflight
    (inflight s ++ ((λ t, {| origin := Automatic; closure := armed_by t |}) <$> ts))
    (with_trace
       (trace s ++ ((λ t, CopyToClipboard (formattedPhoneNumbers (armed_by t))) <$> ts))
       s).

(** ** Sample data *)

Module Sample.

(** Fifteen numbers of ten characters each, separator included. *)
Definition payload150 : string :=
  Eval vm_compute in
    String.concat "" (replicate 15 "555-0100, ").

Definition payload10 : string := "5550100, 5".

(** A roster, and a stand-in for the phone formatter: the numbers that
    are there, joined by a comma. *)
Definition roster : list Musician :=
  [ {| id := "m1"; phone := Some "555-0100" |};
    {| id := "m2"; phone := None |};
    {| id := "m3"; phone := Some "555-0199" |} ].

Definition format (ms : list Musician) (_ : ()) : string :=
  String.concat "," (omap phone ms).

Definition stats (phones : list (option string)) : PhoneFormatStats :=
  {| valid := length (omap (λ p, p) phones);
     invalid := length phones - length (omap (λ p, p) phones);
     stats_validPercentage := 0%Qc |}.

Definition options (auto : bool) : UsePhoneClipboardOptions () :=
  {| opt_autoClearSelection := None; opt_successMessage := None;
     opt_autoUpdateClipboard := Some auto;
     opt_autoUpdateMinSelection := None; opt_autoUpdateDebounce := None;
     formatOptions := () |}.

Definition idle_clipboard (supported : bool) : Clipboard :=
  {| isSupported := supported; isLoading := false; error := None;
     detailedError := None |}.

Definition render (selectedIds : gset string) (supported : bool) : Render :=
  usePhoneClipboard () format stats roster selectedIds false
    (options true) (idle_clipboard supported).

Definition nobody : Render := render ∅ true.
Definition first : Render := render {["m1"]} true.
Definition both : Render := render {["m1"; "m3"]} true.
Definition unsupported : Render := render {["m1"; "m3"]} false.

(** The writer reports a denied permission, by a [false] or by a throw. *)
Definition denied : ClipboardError :=
  {| err_type := PERMISSION_DENIED;
     err_message := "Clipboard permission denied";
     err_suggestedAction := "Allow clipboard access" |}.

Definition after_denial : Clipboard :=
  {| isSupported := true; isLoading := false;
     error := Some "Clipboard permission denied";
     detailedError := Some denied |}.

Definition denied_by_false : Settlement :=
  {| outcome := Returned false; seen := after_denial |}.

Definition denied_by_throw : Settlement :=
  {| outcome := Threw (Js.ErrorObject "Clipboard permission denied");
     seen := after_denial |}.

Definition written : Settlement :=
  {| outcome := Returned true; seen := idle_clipboard true |}.

End Sample.

(** ** Bursts of renders, and events that cannot arm *)


(** Commits of renders with auto-update off or without clipboard support,
    cleanups, and the passing of time. *)
Definition passive (e : Event) : bool :=
  match e with
  | Commit r => negb (autoUpdateClipboard r) || negb (isSupported (clipboard r))
  | Unmount | Elapse _ => true
  | CopyNow _ | Settle _ _ => false
  end.

(** The toast a manual copy ends with when the writer returns [false]. *)
Definition failure_toast (after : Clipboard) : ToastCall :=
  match detailedError after with
  | Some error =>
      match err_type error with
      | PERMISSION_DENIED => showPermissionDenied
      | NOT_SUPPORTED => showNotSupported
      | TRANSIENT | UNKNOWN =>
          showCopyError (err_message error) (err_suggestedAction error)
      end
  | None => showCopyError "Copy operation failed" "Please try again"
  end.

Module Scenario.

(** Auto-update left at its default, off. *)
Definition manual_only : Render :=
  usePhoneClipboard () Sample.format Sample.stats Sample.roster
    {["m1"; "m3"]} true
    {| opt_autoClearSelection := Some true; opt_successMessage := None;
       opt_autoUpdateClipboard := None;
       opt_autoUpdateMinSelection := None; opt_autoUpdateDebounce := None;
       formatOptions := () |}
    (Sample.idle_clipboard true).

(** The one musician without a phone. *)
Definition no_phone : Render := Sample.render {["m2"]} true.

(** An id that is not on the roster. *)
Definition stranger : Render := Sample.render {["m9"]} true.


(** The writer gives up without saying why. *)
Definition gave_up : Settlement :=
  {| outcome := Returned false; seen := Sample.idle_clipboard true |}.

(** A timer of [Sample.first] is pending. *)
Definition waiting : Hook := run mount [Commit Sample.first].

End Scenario.

(** ** Strings: lengths and prefixes *)

Section StringFacts.

Lemma length_app_string (s t : string) :
  String.length (s +:+ t) = (String.length s + String.length t)%nat.
Proof. induction s as [|c s IH]; simpl; [done | by rewrite IH]. Qed.

Lemma length_substring_0 (n : nat) (s : string) :
  String.length (String.substring 0 n s) = Nat.min n (String.length s).
Proof.
  revert s; induction n as [|n IH]; intros [|c s]; simpl; try done.
  by rewrite IH.
Qed.

(** The first [k] characters survive a cut at [n >= k] followed by any
    suffix. *)
Lemma substring_0_cut_app (k n : nat) (s t : string) :
  (k <= n)%nat -> (n <= String.length s)%nat ->
  String.substring 0 k (String.substring 0 n s +:+ t) = String.substring 0 k s.
Proof.
  revert n s; induction k as [|k IH]; intros n s Hk Hn.
  - destruct (String.substring 0 n s +:+ t), s; done.
  - destruct n as [|n]; [lia|].
    destruct s as [|c s]; simpl in *; [lia|].
    f_equal. apply IH; lia.
Qed.

Lemma substring_0_all (t : string) :
  String.substring 0 (String.length t) t = t.
Proof. induction t as [|d t IH]; simpl; [done | by rewrite IH]. Qed.

(** Skipping a whole prefix leaves the suffix. *)
Lemma substring_skip_app (s t : string) :
  String.substring (String.length s) (String.length t) (s +:+ t) = t.
Proof.
  induction s as [|c s IH]; simpl; [apply substring_0_all | done].
Qed.

Lemma falsy_empty (s : string) : Js.falsy s = true <-> s = "".
Proof. destruct s; simpl; split; congruence. Qed.

Lemma js_substring_prefix (s : string) (b : Z) :
  Js.substring s 0 b
  = String.substring 0 (Z.to_nat (Z.max 0 (Z.min b (Js.length s)))) s.
Proof.
  unfold Js.substring, Js.length.
  replace (Z.max 0 (Z.min 0 _)) with 0 by lia.
  rewrite Z.min_l, Z.max_r by lia.
  by rewrite Z.sub_0_r.
Qed.

Lemma length_js_substring_prefix (s : string) (b : Z) :
  Js.length (Js.substring s 0 b) = Z.max 0 (Z.min b (Js.length s)).
Proof.
  rewrite js_substring_prefix. unfold Js.length.
  rewrite length_substring_0. lia.
Qed.

End StringFacts.

(** ** getPreview: truncation *)

Section Preview.

Lemma getPreview_default (payload : string) :
  getPreview payload None = getPreview payload (Some 100).
Proof. done. Qed.

Lemma getPreview_empty (arg : option Z) : getPreview "" arg = "".
Proof. done. Qed.

Lemma getPreview_fits (payload : string) (arg : option Z) :
  Js.length payload <= default 100 arg -> getPreview payload arg = payload.
Proof.
  intros Hfit. unfold getPreview.
  destruct payload as [|c payload]; [done|]. cbn [Js.falsy].
  by rewrite (proj2 (Z.leb_le _ _) Hfit).
Qed.

(** The cut itself: the branch taken by a non-empty payload that does not
    fit. *)
Lemma getPreview_cut (payload : string) (arg : option Z) :
  payload ≠ "" -> default 100 arg < Js.length payload ->
  getPreview payload arg
  = Js.substring payload 0 (default 100 arg - 3) +:+ "...".
Proof.
  intros Hne Hlong. unfold getPreview.
  destruct payload as [|c payload]; [done|]. cbn [Js.falsy].
  by rewrite (proj2 (Z.leb_gt _ _) Hlong).
Qed.

Lemma getPreview_cut_length (payload : string) (arg : option Z) :
  payload ≠ "" -> default 100 arg < Js.length payload ->
  Js.length (getPreview payload arg) = Z.max (default 100 arg) 3.
Proof.
  intros Hne Hlong. rewrite getPreview_cut by done.
  unfold Js.length at 1. rewrite length_app_string, Nat2Z.inj_add.
  fold (Js.length (Js.substring payload 0 (default 100 arg - 3))).
  rewrite length_js_substring_prefix. simpl String.length. lia.
Qed.

End Preview.

(** C7: the preview of a 150-character payload with [maxLength = 100] has
    exactly 100 characters, its first 97 are the payload's first 97 and its
    last three are the ellipsis marker; in general a (non-empty) payload
    longer than [maxLength] comes back cut at [maxLength - 3] with the
    marker appended. *)
Theorem getPreview_truncates (payload : string) (maxLength : Z) :
  payload ≠ "" -> maxLength < Js.length payload ->
  let preview := getPreview payload (Some maxLength) in
  preview = Js.substring payload 0 (maxLength - 3) +:+ "..."
  ∧ (Js.length payload = 150 -> maxLength = 100 ->
     Js.length preview = 100
     ∧ String.substring 0 97 preview = String.substring 0 97 payload
     ∧ String.substring 97 3 preview = "...").
Proof.
  intros Hne Hlong preview.
  assert (Hcut : preview = Js.substring payload 0 (maxLength - 3) +:+ "...")
    by (apply (getPreview_cut payload (Some maxLength)); done).
  split; [done|]. intros H150 ->.
  assert (Hlen : String.length payload = 150%nat) by (unfold Js.length in H150; lia).
  rewrite js_substring_prefix in Hcut.
  replace (Z.to_nat (Z.max 0 (Z.min (100 - 3) (Js.length payload))))
    with 97%nat in Hcut by lia.
  assert (Hhead : String.length (String.substring 0 97 payload) = 97%nat)
    by (rewrite length_substring_0; lia).
  rewrite Hcut. split; [|split].
  - unfold Js.length. rewrite length_app_string, Hhead. done.
  - apply substring_0_cut_app; lia.
  - rewrite <- Hhead at 1. apply (substring_skip_app _ "...").
Qed.

Lemma getPreview_truncates_witness :
  let preview := getPreview Sample.payload150 (Some 100) in
  Js.length preview = 100
  ∧ String.substring 0 97 preview = String.substring 0 97 Sample.payload150
  ∧ String.substring 97 3 preview = "...".
Proof.
  refine (proj2 (getPreview_truncates Sample.payload150 100 _ _) _ _).
  - discriminate.
  - vm_compute. reflexivity.
  - vm_compute. reflexivity.
  - reflexivity.
Defined.

(** C9: for every [maxLength] (the default included) the preview of the
    empty payload is empty; a payload no longer than [maxLength] comes back
    unchanged; a non-empty payload longer than [maxLength] gives a preview
    of [max(maxLength, 3)] characters, which for [maxLength < 3] is the bare
    ellipsis marker and longer than [maxLength]. *)
Theorem getPreview_edges (payload : string) (arg : option Z) :
  let maxLength := default 100 arg in
  getPreview "" arg = ""
  ∧ (Js.length payload <= maxLength -> getPreview payload arg = payload)
  ∧ (payload ≠ "" -> maxLength < Js.length payload ->
     Js.length (getPreview payload arg) = Z.max maxLength 3
     ∧ (maxLength < 3 ->
        getPreview payload arg = "..."
        ∧ maxLength < Js.length (getPreview payload arg))).
Proof.
  intros maxLength. split; [done|]. split.
  - apply getPreview_fits.
  - intros Hne Hlong. split; [by apply getPreview_cut_length|].
    intros Hsmall.
    assert (Hdots : getPreview payload arg = "...").
    { rewrite getPreview_cut by done. rewrite js_substring_prefix.
      fold maxLength.
      replace (Z.to_nat (Z.max 0 (Z.min (maxLength - 3) (Js.length payload))))
        with 0%nat by lia.
      by destruct payload. }
    rewrite Hdots. split; [done|]. unfold Js.length. simpl. lia.
Qed.

Lemma getPreview_edges_witness :
  getPreview Sample.payload10 (Some 10) = Sample.payload10
  ∧ Js.length (getPreview Sample.payload10 (Some 6)) = 6
  ∧ getPreview Sample.payload10 (Some 2) = "...".
Proof.
  split; [|split].
  - refine (proj1 (proj2 (getPreview_edges Sample.payload10 (Some 10))) _).
    vm_compute. discriminate.
  - refine (proj1 (proj2 (proj2 (getPreview_edges Sample.payload10 (Some 6))) _ _)).
    + discriminate.
    + vm_compute. reflexivity.
  - refine (proj1 (proj2 (proj2 (proj2
              (getPreview_edges Sample.payload10 (Some 2))) _ _) _)).
    + discriminate.
    + vm_compute. reflexivity.
    + vm_compute. reflexivity.
Defined.

(** ** Running code over the instance *)

(** Unfolds the monad down to the state it threads. *)
Ltac hook_unfold :=
  unfold emitted, exec, eval, awaited, toast, emit, modify, get, throw,
    try_catch, mbind, hook_bind, bind, mret, hook_ret, ret in *.

Ltac hook_simpl := hook_unfold; simpl in *.

(** Closes an equation between two states given field by field. *)
Ltac hook_eq :=
  unfold armed, disarmed, fired, with_debounceTimeoutRef, with_lastUpdatedRef,
    with_cleanup, with_clock, with_timers, with_inflight, with_trace,
    with_results;
  simpl; rewrite ?filter_nil, ?app_nil_r; repeat f_equal; (lia || done).

Lemma emitted_app {A} (m : M A) (s : Hook) (obs : list Obs) :
  trace (exec m s) = trace s ++ obs -> emitted m s = obs.
Proof. unfold emitted. intros ->. apply drop_app_length. Qed.

Lemma writes_app (tr1 tr2 : list Obs) :
  writes (tr1 ++ tr2) = writes tr1 ++ writes tr2.
Proof. apply omap_app. Qed.

Lemma toasts_app (tr1 tr2 : list Obs) :
  toasts (tr1 ++ tr2) = toasts tr1 ++ toasts tr2.
Proof. apply omap_app. Qed.

(** ** copyPhoneNumbers *)

Section ManualCopy.

Variable r : Render.

Lemma start_empty_selection (s : Hook) :
  selectedMusicians r = [] ->
  copyPhoneNumbers_start r s
  = (Normal (Some {| success := false; message := "No musicians selected";
                     phoneCount := 0 |}),
     with_trace
       (trace s ++ [Toast (showCopyError "No musicians selected"
                             "Please select some musicians first")]) s).
Proof. intros Hnone. unfold copyPhoneNumbers_start. by rewrite Hnone. Qed.

(** Both preconditions pass: the loading toast, then the writer. *)
Lemma start_requests_write (s : Hook) :
  selectedMusicians r ≠ [] -> formattedPhoneNumbers r ≠ "" ->
  copyPhoneNumbers_start r s
  = (Normal None,
     with_trace
       ((trace s ++ [Toast showCopyLoading])
          ++ [CopyToClipboard (formattedPhoneNumbers r)]) s).
Proof.
  intros Hsome Hpayload. unfold copyPhoneNumbers_start.
  destruct (selectedMusicians r); [done|].
  destruct (formattedPhoneNumbers r); [done|]. done.
Qed.

Lemma settle_success (c : Settlement) (s : Hook) :
  outcome c = Returned true ->
  eval (copyPhoneNumbers_settle r c) s
  = Normal {| success := true;
              message := successMessage r (validPhones (phoneStats r));
              phoneCount := validPhones (phoneStats r) |}.
Proof.
  intros Hok. unfold copyPhoneNumbers_settle. rewrite Hok.
  hook_simpl. by destruct (autoClearSelection r && clearSelection r).
Qed.

Lemma settle_throw (e : Js.thrown) (after : Clipboard) (s : Hook) :
  copyPhoneNumbers_settle r {| outcome := Threw e; seen := after |} s
  = (Normal {| success := false; message := caught_message e;
               phoneCount := 0 |},
     with_trace
       (trace s ++ [Toast (showCopyError (caught_message e)
                             "Please try again or copy manually")]) s).
Proof. by destruct e. Qed.

End ManualCopy.

(** C5: with no musician selected, [copyPhoneNumbers] resolves to
    [{success: false, message: 'No musicians selected', phoneCount: 0}]
    (the spec's "No <entities> selected" for this roster), shows the
    selection-empty error toast and nothing else, and does not call the
    clipboard writer: no write is requested and none is awaited. *)
Theorem copyPhoneNumbers_empty_selection
    (r : Render) (c : Settlement) (s : Hook) :
  selectedMusicians r = [] ->
  eval (copyPhoneNumbers r c) s
  = Normal {| success := false; message := "No musicians selected";
              phoneCount := 0 |}
  ∧ emitted (copyPhoneNumbers r c) s
    = [Toast (showCopyError "No musicians selected"
                "Please select some musicians first")]
  ∧ writes (trace (exec (copyPhoneNumbers r c) s)) = writes (trace s)
  ∧ inflight (run s [CopyNow r]) = inflight s
  ∧ results (run s [CopyNow r])
    = results s ++ [{| success := false; message := "No musicians selected";
                       phoneCount := 0 |}].
Proof.
  intros Hnone.
  pose proof (start_empty_selection r s Hnone) as Hstart.
  unfold copyPhoneNumbers, run, step, copy_now. hook_simpl.
  rewrite Hstart. simpl. repeat split; try done.
  - apply drop_app_length.
  - rewrite writes_app. simpl. apply app_nil_r.
Qed.

Lemma copyPhoneNumbers_empty_selection_witness :
  eval (copyPhoneNumbers Sample.nobody Sample.written) mount
  = Normal {| success := false; message := "No musicians selected";
              phoneCount := 0 |}
  ∧ writes (trace (exec (copyPhoneNumbers Sample.nobody Sample.written) mount))
    = [].
Proof.
  assert (Hnone : selectedMusicians Sample.nobody = []) by (vm_compute; reflexivity).
  destruct (copyPhoneNumbers_empty_selection
              Sample.nobody Sample.written mount Hnone)
    as (Hres & _ & Hwrites & _).
  exact (conj Hres Hwrites).
Defined.

(** C6: when the awaited write throws, [copyPhoneNumbers] catches it and
    still resolves normally: to [{success: false, message, phoneCount: 0}]
    where [message] is the caught [Error]'s message, or
    ['Unknown error occurred'] for any other thrown value; after the
    loading toast it shows exactly one toast, the error one. *)
Theorem copyPhoneNumbers_write_throws
    (r : Render) (e : Js.thrown) (after : Clipboard) (s : Hook) :
  selectedMusicians r ≠ [] -> formattedPhoneNumbers r ≠ "" ->
  let c := {| outcome := Threw e; seen := after |} in
  eval (copyPhoneNumbers r c) s
  = Normal {| success := false; message := caught_message e;
              phoneCount := 0 |}
  ∧ toasts (emitted (copyPhoneNumbers r c) s)
    = [showCopyLoading;
       showCopyError (caught_message e) "Please try again or copy manually"].
Proof.
  intros Hsome Hpayload c.
  pose proof (start_requests_write r s Hsome Hpayload) as Hstart.
  unfold copyPhoneNumbers. hook_unfold. rewrite Hstart.
  subst c. rewrite settle_throw. simpl. split; [done|].
  rewrite <- !app_assoc. rewrite drop_app_length. done.
Qed.

Lemma copyPhoneNumbers_write_throws_witness :
  eval (copyPhoneNumbers Sample.both Sample.denied_by_throw) mount
  = Normal {| success := false; message := "Clipboard permission denied";
              phoneCount := 0 |}.
Proof.
  refine (proj1 (copyPhoneNumbers_write_throws Sample.both
                   (Js.ErrorObject "Clipboard permission denied")
                   Sample.after_denial mount _ _)).
  - vm_compute. discriminate.
  - vm_compute. discriminate.
Defined.

Section ManualRound.

Variable r : Render.
Hypothesis Hsome : selectedMusicians r ≠ [].
Hypothesis Hpayload : formattedPhoneNumbers r ≠ "".

Lemma copyPhoneNumbers_success (c : Settlement) (s : Hook) :
  outcome c = Returned true ->
  eval (copyPhoneNumbers r c) s
  = Normal {| success := true;
              message := successMessage r (validPhones (phoneStats r));
              phoneCount := validPhones (phoneStats r) |}.
Proof.
  intros Hok.
  pose proof (start_requests_write r s Hsome Hpayload) as Hstart.
  unfold copyPhoneNumbers. hook_unfold. rewrite Hstart.
  apply (settle_success r c _ Hok).
Qed.

(** The same call through the events: the host calls, the write it
    awaits is the newest one, and it settles with success. *)
Lemma copy_now_then_success (c : Settlement) (s : Hook) :
  outcome c = Returned true ->
  let s' := run s [CopyNow r; Settle (length (inflight s)) c] in
  inflight s' = inflight s
  ∧ results s'
    = results s
        ++ [{| success := true;
               message := successMessage r (validPhones (phoneStats r));
               phoneCount := validPhones (phoneStats r) |}].
Proof.
  intros Hok.
  pose proof (start_requests_write r s Hsome Hpayload) as Hstart.
  unfold run, step, copy_now, settle. hook_simpl. rewrite Hstart. simpl.
  rewrite list_lookup_middle by done. simpl.
  unfold copyPhoneNumbers_settle. rewrite Hok. hook_simpl.
  destruct (autoClearSelection r && clearSelection r); simpl;
    (split; [|done]);
    rewrite delete_middle; apply app_nil_r.
Qed.

End ManualRound.

Lemma run_app (s : Hook) (es1 es2 : list Event) :
  run s (es1 ++ es2) = run (run s es1) es2.
Proof. apply foldl_app. Qed.

(** C8: with the same render (a non-empty selection, a non-empty payload)
    and a writer that succeeds, two calls of [copyPhoneNumbers] in a row
    both resolve to [success: true] with the same [phoneCount], the
    selection's count of valid phones. *)
Theorem copyPhoneNumbers_twice
    (r : Render) (c1 c2 : Settlement) (s : Hook) :
  selectedMusicians r ≠ [] -> formattedPhoneNumbers r ≠ "" ->
  outcome c1 = Returned true -> outcome c2 = Returned true ->
  let expected :=
    {| success := true;
       message := successMessage r (validPhones (phoneStats r));
       phoneCount := validPhones (phoneStats r) |} in
  let k := length (inflight s) in
  eval (copyPhoneNumbers r c1) s = Normal expected
  ∧ eval (copyPhoneNumbers r c2) (exec (copyPhoneNumbers r c1) s)
    = Normal expected
  ∧ results (run s [CopyNow r; Settle k c1; CopyNow r; Settle k c2])
    = results s ++ [expected; expected].
Proof.
  intros Hsome Hpayload Hok1 Hok2 expected k.
  split; [by apply copyPhoneNumbers_success|].
  split; [by apply copyPhoneNumbers_success|].
  change [CopyNow r; Settle k c1; CopyNow r; Settle k c2]
    with ([CopyNow r; Settle k c1] ++ [CopyNow r; Settle k c2]).
  rewrite run_app.
  destruct (copy_now_then_success r Hsome Hpayload c1 s Hok1) as [Hin1 Hres1].
  fold k in Hin1, Hres1.
  destruct (copy_now_then_success r Hsome Hpayload c2
              (run s [CopyNow r; Settle k c1]) Hok2) as [_ Hres2].
  rewrite Hin1 in Hres2. fold k in Hres2.
  rewrite Hres2, Hres1, <- app_assoc. done.
Qed.

Lemma copyPhoneNumbers_twice_witness :
  results (run mount [CopyNow Sample.both; Settle 0 Sample.written;
                      CopyNow Sample.both; Settle 0 Sample.written])
  = [ {| success := true; message := "Copied 2 phone numbers to clipboard";
         phoneCount := 2 |};
      {| success := true; message := "Copied 2 phone numbers to clipboard";
         phoneCount := 2 |} ].
Proof.
  refine (proj2 (proj2 (copyPhoneNumbers_twice Sample.both
                          Sample.written Sample.written mount _ _ _ _))).
  - vm_compute. discriminate.
  - vm_compute. discriminate.
  - reflexivity.
  - reflexivity.
Defined.

(** ** The timer callback after its await *)

Section AutoSettle.

Variable r : Render.

Lemma autoUpdate_settle_success (after : Clipboard) (s : Hook) :
  autoUpdate_settle r {| outcome := Returned true; seen := after |} s
  = (Normal (),
     with_trace
       (trace s ++ [Toast (showToast
                             (copySuccess (validPhones (phoneStats r))
                                (formattedPhoneNumbers r))
                             2000 "fade")])
       (with_lastUpdatedRef (formattedPhoneNumbers r) s)).
Proof. done. Qed.

(** A [false] from the writer falls through the [if (success)]: nothing
    is logged, shown or stored. *)
Lemma autoUpdate_settle_false (after : Clipboard) (s : Hook) :
  autoUpdate_settle r {| outcome := Returned false; seen := after |} s
  = (Normal (), s).
Proof. done. Qed.

(** A throw reaches the [catch]: the warning, then a toast for the two
    kinds the handler names. *)
Lemma autoUpdate_settle_throw (e : Js.thrown) (after : Clipboard) (s : Hook) :
  toasts (emitted (autoUpdate_settle r {| outcome := Threw e; seen := after |}) s)
  = match detailedError after with
    | Some clipboardError =>
        match err_type clipboardError with
        | PERMISSION_DENIED => [showPermissionDenied]
        | NOT_SUPPORTED => [showNotSupported]
        | TRANSIENT | UNKNOWN => []
        end
    | None => []
    end.
Proof.
  unfold autoUpdate_settle. hook_simpl.
  destruct (detailedError after) as [[[] ? ?]|]; simpl;
    rewrite <- ?app_assoc, drop_app_length; done.
Qed.

(** So a throw shows a toast exactly for the two kinds the handler names,
    and a [false] never does. *)
Lemma autoUpdate_throw_notifies_iff (e : Js.thrown) (after : Clipboard) (s : Hook) :
  toasts (emitted (autoUpdate_settle r {| outcome := Threw e; seen := after |}) s)
    ≠ []
  ↔ ∃ clipboardError,
      detailedError after = Some clipboardError
      ∧ actionable (err_type clipboardError) = true.
Proof.
  rewrite autoUpdate_settle_throw.
  destruct (detailedError after) as [[[] ? ?]|]; simpl; split;
    try done; try (intros _; by eexists);
    intros (? & ? & ?); simplify_eq/=.
Qed.

Lemma autoUpdate_false_never_notifies (after : Clipboard) (s : Hook) :
  emitted (autoUpdate_settle r {| outcome := Returned false; seen := after |}) s
  = [].
Proof.
  unfold emitted, exec. rewrite autoUpdate_settle_false. simpl.
  apply drop_all.
Qed.

(** The ref only ever moves to the payload that was written, and only on
    a [true] from the writer. *)
Lemma autoUpdate_settle_lastUpdatedRef (c : Settlement) (s : Hook) :
  lastUpdatedRef (exec (autoUpdate_settle r c) s)
  = match outcome c with
    | Returned true => formattedPhoneNumbers r
    | _ => lastUpdatedRef s
    end.
Proof.
  destruct c as [[[]|e] after]; try done.
  unfold autoUpdate_settle. hook_simpl.
  destruct (detailedError after) as [[[] ? ?]|]; done.
Qed.

End AutoSettle.

(** C1, at the input where the code departs from it: the writer reports a
    denied permission.  When it does so by returning [false] the automatic
    write ends without any toast; only when it throws does the
    permission-denied toast appear. *)
Theorem auto_denied_by_false_is_silent :
  toasts (trace (run mount [Commit Sample.both; Elapse 300;
                            Settle 0 Sample.denied_by_false])) = []
  ∧ toasts (trace (run mount [Commit Sample.both; Elapse 300;
                              Settle 0 Sample.denied_by_throw]))
    = [showPermissionDenied].
Proof. split; vm_compute; reflexivity. Qed.

(** ** The timer and the effect *)

Section Timers.

Lemma one_timer_shape (s : Hook) :
  one_timer s ->
  timers s = []
  ∨ ∃ t, timers s = [t] ∧ debounceTimeoutRef s = Some (timer_id t).
Proof.
  intros [Hlen Hheld]. destruct (timers s) as [|t [|t' ts]] eqn:Hts.
  - by left.
  - right. exists t. split; [done|]. apply Hheld. by left.
  - simpl in Hlen. lia.
Qed.

Lemma one_timer_intro (s : Hook) :
  (timers s = []
   ∨ ∃ t, timers s = [t] ∧ debounceTimeoutRef s = Some (timer_id t)) ->
  one_timer s.
Proof.
  intros [Hnone | (t & Hone & Hheld)]; split; rewrite ?Hnone, ?Hone; simpl;
    try lia; intros t' Hin.
  - by apply elem_of_nil in Hin.
  - apply list_elem_of_singleton in Hin. by subst.
Qed.

(** Under the invariant, clearing the held handle clears every timer. *)
Lemma clear_debounce_spec (s : Hook) :
  one_timer s ->
  clear_debounce s = (Normal (), with_timers (next_timer s) [] s).
Proof.
  intros Hone. destruct (one_timer_shape s Hone) as [Hnone | (t & Ht & Hheld)];
    destruct s as [held last reg now next ts waiting tr res]; simpl in *;
    subst; unfold clear_debounce, clearTimeout; hook_simpl.
  - by destruct held.
  - unfold with_timers. simpl. by rewrite filter_cons_False by (intros H; by apply H).
Qed.

Lemma run_cleanup_spec (s : Hook) :
  one_timer s -> covered s -> run_cleanup s = (Normal (), disarmed s).
Proof.
  intros Hone Hcov. unfold run_cleanup. hook_unfold.
  destruct (cleanup s) eqn:Hreg.
  - by rewrite clear_debounce_spec.
  - assert (Hnone : timers s = []).
    { destruct (timers s) eqn:Hts; [done|].
      unfold covered in Hcov. rewrite Hts in Hcov.
      specialize (Hcov ltac:(done)). congruence. }
    destruct s; simpl in *; by subst.
Qed.

(** The effect body, by cases on its guards. *)
Lemma autoUpdate_effect_spec (r : Render) (s : Hook) :
  one_timer s ->
  autoUpdate_effect r s
  = if negb (autoUpdateClipboard r) || negb (isSupported (clipboard r))
    then (Normal false, s)
    else if arms s r
         then (Normal true,
               with_debounceTimeoutRef (Some (next_timer s))
                 (with_timers (Pos.succ (next_timer s))
                    [{| timer_id := next_timer s;
                        due := clock s + timer_delay (autoUpdateDebounce r);
                        armed_by := r |}] s))
         else (Normal false, with_timers (next_timer s) [] s).
Proof.
  intros Hone. unfold autoUpdate_effect, arms.
  destruct (autoUpdateClipboard r), (isSupported (clipboard r)); try done.
  hook_unfold. cbn [negb orb andb]. rewrite clear_debounce_spec by done.
  cbn [negb orb andb].
  destruct (Z.of_nat (length (selectedMusicians r)) <? autoUpdateMinSelection r);
    [done|].
  destruct (Js.falsy (formattedPhoneNumbers r)); [done|].
  destruct (bool_decide (validPhones (phoneStats r) = 0%nat)); [done|].
  simpl. by destruct (bool_decide (lastUpdatedRef s = formattedPhoneNumbers r)).
Qed.

(** A commit leaves the new render's timer alone, or none. *)
Lemma commit_spec (r : Render) (s : Hook) :
  one_timer s -> covered s ->
  commit r s = (Normal (), if arms s r then armed r s else disarmed s).
Proof.
  intros Hone Hcov. unfold commit. hook_unfold.
  rewrite run_cleanup_spec by done.
  assert (Hone' : one_timer (disarmed s)) by (apply one_timer_intro; by left).
  rewrite autoUpdate_effect_spec by done.
  replace (arms (disarmed s) r) with (arms s r) by done.
  unfold arms.
  destruct (autoUpdateClipboard r), (isSupported (clipboard r)); simpl;
    try (by destruct s).
  match goal with |- context [if ?b then _ else _] => destruct b end;
    by destruct s.
Qed.

End Timers.

(** ** Time *)

Section Time.

Lemma fire_all_spec (ts : list Timer) (s : Hook) :
  fire_all ts s = (Normal (), fired ts s).
Proof.
  revert s. induction ts as [|t ts IH]; intros s.
  - destruct s. unfold fired. simpl. by rewrite !app_nil_r.
  - simpl. unfold autoUpdate_fire. hook_unfold. rewrite IH.
    destruct s. unfold fired. simpl. by rewrite <- !app_assoc.
Qed.

Lemma tick_spec (s : Hook) :
  tick s
  = (Normal (),
     fired (filter (λ t, (due t ≤ S (clock s))%nat) (timers s))
       (with_timers (next_timer s)
          (filter (λ t, ¬ (due t ≤ S (clock s))%nat) (timers s))
          (with_clock (S (clock s)) s))).
Proof. unfold tick. hook_unfold. by rewrite fire_all_spec. Qed.

(** With no timer pending, time only moves the clock. *)
Lemma elapse_no_timers (dt : nat) (s : Hook) :
  timers s = [] ->
  elapse dt s = (Normal (), with_clock (clock s + dt) s).
Proof.
  revert s. induction dt as [|dt IH]; intros s Hnone.
  - destruct s. simpl. unfold with_clock. simpl. by rewrite Nat.add_0_r.
  - simpl. hook_unfold. rewrite tick_spec, Hnone. simpl.
    rewrite IH by done.
    destruct s. unfold fired, with_clock. simpl in *. subst.
    hook_eq.
Qed.


(** A timer that comes due fires, once. *)
Lemma elapse_fires (dt : nat) (t : Timer) (s : Hook) :
  timers s = [t] -> (0 < dt)%nat -> (due t ≤ clock s + dt)%nat ->
  elapse dt s
  = (Normal (),
     fired [t] (with_timers (next_timer s) [] (with_clock (clock s + dt) s))).
Proof.
  revert s. induction dt as [|dt IH]; intros s Hone Hpos Hdue; [lia|].
  simpl. hook_unfold. rewrite tick_spec, Hone.
  destruct (decide (due t ≤ S (clock s))%nat) as [Hnow | Hlater].
  - rewrite filter_cons_True, filter_cons_False by (done || tauto). simpl.
    rewrite elapse_no_timers by done.
    destruct s. unfold fired, with_clock. simpl in *. subst.
    hook_eq.
  - rewrite filter_cons_False, filter_cons_True by done. simpl.
    rewrite (IH _) by (simpl; lia || done).
    destruct s. unfold fired, with_clock. simpl in *. subst.
    hook_eq.
Qed.

End Time.

(** ** Writes that settle, and manual calls: the timer is not theirs *)

(** Runs through every branch of a manual call or of a settling write. *)
Ltac by_cases :=
  unfold settle, copy_now, copyPhoneNumbers_start, copyPhoneNumbers_settle,
    autoUpdate_settle, timers_untouched;
  hook_simpl;
  repeat (case_match; simplify_eq/=; try done).

Section Frames.

Lemma copy_now_untouched (r : Render) (s : Hook) :
  timers_untouched s (exec (copy_now r) s).
Proof. by_cases. Qed.

Lemma copy_now_lastUpdatedRef (r : Render) (s : Hook) :
  lastUpdatedRef (exec (copy_now r) s) = lastUpdatedRef s.
Proof. by_cases. Qed.

Lemma copy_now_inflight (r : Render) (s : Hook) (p : Pending) :
  p ∈ inflight (exec (copy_now r) s) -> p ∈ inflight s ∨ origin p = Manual.
Proof.
  by_cases; intros Hin; try by left.
  apply elem_of_app in Hin as [Hin | Hin]; [by left|].
  apply list_elem_of_singleton in Hin. subst. by right.
Qed.

Lemma settle_untouched (k : nat) (c : Settlement) (s : Hook) :
  timers_untouched s (exec (settle k c) s).
Proof. by_cases. Qed.

Lemma settle_inflight (k : nat) (c : Settlement) (s : Hook) (p : Pending) :
  p ∈ inflight (exec (settle k c) s) -> p ∈ inflight s.
Proof.
  by_cases; try done; intros Hin; by apply list_elem_of_delete_inv in Hin.
Qed.

(** A manual write that settles leaves [lastUpdatedRef] alone, whatever
    its outcome. *)
Lemma copyPhoneNumbers_settle_lastUpdatedRef
    (r : Render) (c : Settlement) (s : Hook) :
  lastUpdatedRef (exec (copyPhoneNumbers_settle r c) s) = lastUpdatedRef s.
Proof. by_cases. Qed.

Lemma copyPhoneNumbers_lastUpdatedRef
    (r : Render) (c : Settlement) (s : Hook) :
  lastUpdatedRef (exec (copyPhoneNumbers r c) s) = lastUpdatedRef s.
Proof. unfold copyPhoneNumbers. by_cases. Qed.

End Frames.

(** ** The invariant holds all along *)

Section Invariant.

Lemma wf_no_timer (s : Hook) : timers s = [] -> waiting_ok s -> wf s.
Proof.
  intros Hnone Hwaiting. unfold wf, one_timer, covered, payloads_nonempty.
  rewrite Hnone. simpl. split; [split; [lia|] | split; [done | split; [|done]]];
    intros ? Hin; by apply elem_of_nil in Hin.
Qed.

Lemma wf_one_timer (s : Hook) (t : Timer) :
  timers s = [t] -> debounceTimeoutRef s = Some (timer_id t) ->
  cleanup s = true -> formattedPhoneNumbers (armed_by t) ≠ "" ->
  waiting_ok s -> wf s.
Proof.
  intros Hone Hheld Hreg Hpayload Hwaiting.
  unfold wf, one_timer, covered, payloads_nonempty.
  rewrite Hone. simpl. split; [split; [lia|] | split; [done | split; [|done]]];
    intros ? Hin; apply list_elem_of_singleton in Hin; by subst.
Qed.

Lemma wf_waiting (s : Hook) : wf s -> waiting_ok s.
Proof. by intros (_ & _ & _ & Hwaiting). Qed.

Lemma wf_mount : wf mount.
Proof.
  apply wf_no_timer; [done|]. intros ? Hin. by apply elem_of_nil in Hin.
Qed.

Lemma wf_untouched (s s' : Hook) :
  wf s -> timers_untouched s s' ->
  (∀ p, p ∈ inflight s' -> p ∈ inflight s ∨ origin p = Manual) ->
  wf s'.
Proof.
  intros ([Hlen Hheld] & Hcov & Htimers & Hwaiting)
         (Href & Hreg & _ & _ & Hts) Hin.
  unfold wf, one_timer, covered, payloads_nonempty.
  rewrite Href, Hreg, Hts.
  split; [done|]. split; [done|]. split; [done|].
  intros p Hp Hauto. destruct (Hin p Hp) as [Hold | Hmanual].
  - by apply Hwaiting.
  - congruence.
Qed.

Lemma wf_disarmed (s : Hook) : wf s -> wf (disarmed s).
Proof. intros Hwf. apply wf_no_timer; [done|]. exact (wf_waiting s Hwf). Qed.

Lemma arms_payload (r : Render) (s : Hook) :
  arms s r = true -> formattedPhoneNumbers r ≠ "".
Proof.
  unfold arms. intros Harms Hempty. rewrite Hempty in Harms.
  simpl in Harms. by rewrite !andb_false_r in Harms.
Qed.

Lemma wf_armed (r : Render) (s : Hook) :
  wf s -> arms s r = true -> wf (armed r s).
Proof.
  intros Hwf Harms.
  eapply wf_one_timer; [done | done | done | | exact (wf_waiting s Hwf)].
  simpl. by eapply arms_payload.
Qed.

Lemma wf_commit (r : Render) (s : Hook) : wf s -> wf (exec (commit r) s).
Proof.
  intros Hwf. pose proof Hwf as (Hone & Hcov & _).
  unfold exec. rewrite commit_spec by done. simpl.
  destruct (arms s r) eqn:Harms; [by apply wf_armed | by apply wf_disarmed].
Qed.

Lemma wf_cleanup (s : Hook) : wf s -> wf (exec run_cleanup s).
Proof.
  intros Hwf. pose proof Hwf as (Hone & Hcov & _).
  unfold exec. rewrite run_cleanup_spec by done. by apply wf_disarmed.
Qed.

Lemma wf_tick (s : Hook) : wf s -> wf (exec tick s).
Proof.
  intros Hwf. pose proof Hwf as (Hone & Hcov & Htimers & Hwaiting).
  unfold exec. rewrite tick_spec. simpl.
  destruct (one_timer_shape s Hone) as [Hnone | (t & Ht & Hheld)].
  - rewrite Hnone, !filter_nil. apply wf_no_timer; [done|].
    intros p Hin. simpl in Hin. rewrite app_nil_r in Hin. by apply Hwaiting.
  - assert (Hpayload : formattedPhoneNumbers (armed_by t) ≠ "")
      by (apply Htimers; rewrite Ht; by left).
    rewrite Ht. destruct (decide (due t ≤ S (clock s))%nat) as [Hnow | Hlater].
    + rewrite filter_cons_True, filter_cons_False by (done || tauto).
      rewrite !filter_nil. apply wf_no_timer; [done|].
      intros p Hin Hauto. simpl in Hin.
      apply elem_of_app in Hin as [Hin | Hin]; [by apply Hwaiting|].
      apply list_elem_of_singleton in Hin. by subst.
    + rewrite filter_cons_False, filter_cons_True by done.
      rewrite !filter_nil.
      apply (wf_one_timer _ t); try done.
      * simpl. apply Hcov. by rewrite Ht.
      * intros p Hin. simpl in Hin. rewrite app_nil_r in Hin.
        by apply Hwaiting.
Qed.

Lemma wf_elapse (dt : nat) (s : Hook) : wf s -> wf (exec (elapse dt) s).
Proof.
  revert s. induction dt as [|dt IH]; intros s Hwf; [done|].
  simpl. unfold exec in *. hook_unfold.
  specialize (wf_tick s Hwf) as Htick. unfold exec in Htick.
  rewrite tick_spec in *. by apply IH.
Qed.

Lemma wf_step (e : Event) (s : Hook) : wf s -> wf (exec (step e) s).
Proof.
  intros Hwf. destruct e as [r | | dt | r | k c]; simpl.
  - by apply wf_commit.
  - by apply wf_cleanup.
  - by apply wf_elapse.
  - apply (wf_untouched s); [done | apply copy_now_untouched |].
    apply copy_now_inflight.
  - apply (wf_untouched s); [done | apply settle_untouched |].
    intros p Hin. left. by apply settle_inflight in Hin.
Qed.

Lemma wf_run (es : list Event) (s : Hook) : wf s -> wf (run s es).
Proof.
  revert s. induction es as [|e es IH]; intros s Hwf; [done|].
  apply IH. by apply wf_step.
Qed.

Lemma reachable_wf (s : Hook) : reachable s -> wf s.
Proof. intros [es ->]. apply wf_run, wf_mount. Qed.

End Invariant.

(** ** The delay a timer runs with *)

Section TimerDelay.



Lemma timer_delay_pos (delay : Z) : (1 ≤ timer_delay delay)%nat.
Proof.
  unfold timer_delay.
  destruct (Z.leb_spec 1 delay), (Z.leb_spec delay TIMEOUT_MAX); simpl; lia.
Qed.

(** A timer never runs longer than asked, but for the least delay of
    1 ms. *)
Lemma timer_delay_le (delay : Z) :
  (timer_delay delay ≤ Nat.max 1 (Z.to_nat delay))%nat.
Proof.
  unfold timer_delay.
  destruct (Z.leb_spec 1 delay), (Z.leb_spec delay TIMEOUT_MAX); simpl; lia.
Qed.

Lemma timer_delay_by (delay : Z) (d : nat) :
  (0 < d)%nat -> (Z.to_nat delay ≤ d)%nat -> (timer_delay delay ≤ d)%nat.
Proof. intros Hpos Hlate. pose proof (timer_delay_le delay). lia. Qed.

End TimerDelay.

(** ** Debouncing *)

Section Debounce.

Lemma exec_commit (r : Render) (s : Hook) :
  wf s -> exec (commit r) s = if arms s r then armed r s else disarmed s.
Proof.
  intros (Hone & Hcov & _). unfold exec. by rewrite commit_spec.
Qed.


End Debounce.




(** ** lastUpdatedRef *)

Section LastUpdated.

Lemma commit_lastUpdatedRef (r : Render) (s : Hook) :
  wf s -> lastUpdatedRef (exec (commit r) s) = lastUpdatedRef s.
Proof.
  intros Hwf. rewrite exec_commit by done. by destruct (arms s r).
Qed.

Lemma cleanup_lastUpdatedRef (s : Hook) :
  wf s -> lastUpdatedRef (exec run_cleanup s) = lastUpdatedRef s.
Proof.
  intros (Hone & Hcov & _). unfold exec. by rewrite run_cleanup_spec.
Qed.

Lemma elapse_lastUpdatedRef (dt : nat) (s : Hook) :
  lastUpdatedRef (exec (elapse dt) s) = lastUpdatedRef s.
Proof.
  revert s. induction dt as [|dt IH]; intros s; [done|].
  simpl. unfold exec in *. hook_unfold. rewrite tick_spec.
  by rewrite IH.
Qed.

(** A settling write moves the ref in one case only. *)
Lemma settle_lastUpdatedRef (k : nat) (c : Settlement) (s : Hook) :
  lastUpdatedRef (exec (settle k c) s)
  = match inflight s !! k with
    | Some p =>
        match origin p, outcome c with
        | Automatic, Returned true => formattedPhoneNumbers (closure p)
        | _, _ => lastUpdatedRef s
        end
    | None => lastUpdatedRef s
    end.
Proof. by_cases. Qed.

End LastUpdated.

(** C3: [lastUpdatedRef] changes only when an automatic write settles with
    success, and then to the payload that was written.  No other event
    touches it: not a manual [copyPhoneNumbers], whatever its outcome, not
    an automatic write that fails, not a commit, a cleanup or the passing
    of time.  Once set it is never the empty string again. *)
Theorem lastUpdatedRef_only_on_auto_success (s : Hook) (e : Event) :
  reachable s ->
  let s' := exec (step e) s in
  (lastUpdatedRef s' = lastUpdatedRef s
   ∨ ∃ k p after,
       e = Settle k {| outcome := Returned true; seen := after |}
       ∧ inflight s !! k = Some p ∧ origin p = Automatic
       ∧ lastUpdatedRef s' = formattedPhoneNumbers (closure p))
  ∧ (lastUpdatedRef s ≠ "" -> lastUpdatedRef s' ≠ "")
  ∧ (∀ r c, lastUpdatedRef (exec (copyPhoneNumbers r c) s) = lastUpdatedRef s)
  ∧ (∀ r c, failed (outcome c) = true ->
       lastUpdatedRef (exec (autoUpdate_settle r c) s) = lastUpdatedRef s).
Proof.
  intros Hreach s'. pose proof (reachable_wf s Hreach) as Hwf.
  assert (Hstep :
    lastUpdatedRef s' = lastUpdatedRef s
    ∨ ∃ k p after,
        e = Settle k {| outcome := Returned true; seen := after |}
        ∧ inflight s !! k = Some p ∧ origin p = Automatic
        ∧ lastUpdatedRef s' = formattedPhoneNumbers (closure p)).
  { subst s'. destruct e as [r | | dt | r | k c]; cbn [step].
    - left. by apply commit_lastUpdatedRef.
    - left. by apply cleanup_lastUpdatedRef.
    - left. apply elapse_lastUpdatedRef.
    - left. apply copy_now_lastUpdatedRef.
    - rewrite settle_lastUpdatedRef.
      destruct (inflight s !! k) as [p|] eqn:Hp; [|by left].
      destruct (origin p) eqn:Horigin; [|by left].
      destruct c as [[[]|err] after]; simpl; [|by left|by left].
      right. exists k, p, after. by rewrite Hp. }
  split; [done|]. split; [|split].
  - intros Hset. destruct Hstep as [-> | (k & p & after & _ & Hp & Hauto & ->)];
      [done|].
    destruct Hwf as (_ & _ & _ & Hwaiting). apply Hwaiting; [|done].
    by eapply list_elem_of_lookup_2.
  - intros r c. apply copyPhoneNumbers_lastUpdatedRef.
  - intros r c Hfailed. rewrite autoUpdate_settle_lastUpdatedRef.
    by destruct (outcome c) as [[]|].
Qed.

Lemma lastUpdatedRef_only_on_auto_success_witness :
  let s := run mount [Commit Sample.both; Elapse 300; Settle 0 Sample.written] in
  lastUpdatedRef s = "555-0100,555-0199"
  ∧ lastUpdatedRef
      (exec (copyPhoneNumbers Sample.first Sample.written) s)
    = lastUpdatedRef s.
Proof.
  split; [vm_compute; reflexivity|].
  refine (proj1 (proj2 (proj2
            (lastUpdatedRef_only_on_auto_success
               (run mount [Commit Sample.both; Elapse 300;
                           Settle 0 Sample.written])
               Unmount _))) Sample.first Sample.written).
  by eexists.
Defined.

(** ** Effect runs that do not arm *)

Section NoArm.

Variable r : Render.
Variable s : Hook.
Hypothesis Hwf : wf s.
Hypothesis Hidle : arms s r = false.

Lemma commit_disarms : run s [Commit r] = disarmed s.
Proof. unfold run. cbn [foldl step]. by rewrite exec_commit, Hidle. Qed.

(** No timer is left, so time brings no write. *)
Lemma commit_disarms_for_good (dt : nat) :
  run s [Commit r; Elapse dt] = with_clock (clock s + dt) (disarmed s).
Proof.
  change [Commit r; Elapse dt] with ([Commit r] ++ [Elapse dt]).
  rewrite run_app, commit_disarms. unfold run. cbn [foldl step].
  unfold exec. by rewrite elapse_no_timers.
Qed.

Lemma effect_does_not_arm :
  eval (autoUpdate_effect r) s = Normal false
  ∧ next_timer (exec (autoUpdate_effect r) s) = next_timer s.
Proof.
  destruct Hwf as (Hone & _). unfold eval, exec.
  rewrite autoUpdate_effect_spec, Hidle by done.
  by destruct (negb (autoUpdateClipboard r) || negb (isSupported (clipboard r))).
Qed.

End NoArm.

Lemma arms_synced (r : Render) (s : Hook) :
  formattedPhoneNumbers r = lastUpdatedRef s -> arms s r = false.
Proof.
  intros Hsame. unfold arms.
  rewrite (bool_decide_eq_true_2 (lastUpdatedRef s = formattedPhoneNumbers r))
    by done.
  apply andb_false_r.
Qed.

Lemma arms_unsupported (r : Render) (s : Hook) :
  isSupported (clipboard r) = false -> arms s r = false.
Proof. intros Hno. unfold arms. rewrite Hno. by rewrite andb_false_r. Qed.

(** C4: when the render's formatted payload equals [lastUpdatedRef], the
    effect returns before [setTimeout]: no handle is handed out, the commit
    leaves no timer pending, and however much time passes afterwards no
    write is requested and none is awaited.  This holds for every
    selection and every configuration, auto-update enabled or not. *)
Theorem no_rearm_when_synced (s : Hook) (r : Render) (dt : nat) :
  reachable s -> formattedPhoneNumbers r = lastUpdatedRef s ->
  eval (autoUpdate_effect r) s = Normal false
  ∧ next_timer (exec (autoUpdate_effect r) s) = next_timer s
  ∧ timers (run s [Commit r]) = []
  ∧ next_timer (run s [Commit r]) = next_timer s
  ∧ trace (run s [Commit r; Elapse dt]) = trace s
  ∧ inflight (run s [Commit r; Elapse dt]) = inflight s.
Proof.
  intros Hreach Hsame. pose proof (reachable_wf s Hreach) as Hwf.
  pose proof (arms_synced r s Hsame) as Hidle.
  destruct (effect_does_not_arm r s Hwf Hidle) as [Heval Hnext].
  rewrite commit_disarms, commit_disarms_for_good by done.
  done.
Qed.

Lemma no_rearm_when_synced_witness :
  let s := run mount [Commit Sample.both; Elapse 300; Settle 0 Sample.written] in
  timers (run s [Commit Sample.both]) = []
  ∧ trace (run s [Commit Sample.both; Elapse 1000]) = trace s.
Proof.
  assert (Hreach : reachable (run mount [Commit Sample.both; Elapse 300;
                                         Settle 0 Sample.written]))
    by (by eexists).
  assert (Hsame : formattedPhoneNumbers Sample.both
                  = lastUpdatedRef (run mount [Commit Sample.both; Elapse 300;
                                               Settle 0 Sample.written]))
    by (vm_compute; reflexivity).
  destruct (no_rearm_when_synced _ Sample.both 1000%nat Hreach Hsame)
    as (_ & _ & Htimers & _ & Htrace & _).
  exact (conj Htimers Htrace).
Defined.

(** C10: with [clipboard.isSupported] false the effect returns at its
    first guard, touching nothing; the commit leaves no timer and time
    brings no write.  [copyPhoneNumbers] does not read [isSupported]: with
    someone selected and a non-empty payload it shows the loading toast and
    calls the writer all the same. *)
Theorem support_gating (s : Hook) (r : Render) (dt : nat) :
  reachable s -> isSupported (clipboard r) = false ->
  autoUpdate_effect r s = (Normal false, s)
  ∧ timers (run s [Commit r]) = []
  ∧ next_timer (run s [Commit r]) = next_timer s
  ∧ trace (run s [Commit r; Elapse dt]) = trace s
  ∧ (selectedMusicians r ≠ [] -> formattedPhoneNumbers r ≠ "" ->
     eval (copyPhoneNumbers_start r) s = Normal None
     ∧ emitted (copyPhoneNumbers_start r) s
       = [Toast showCopyLoading; CopyToClipboard (formattedPhoneNumbers r)]
     ∧ inflight (run s [CopyNow r])
       = inflight s ++ [{| origin := Manual; closure := r |}]).
Proof.
  intros Hreach Hno. pose proof (reachable_wf s Hreach) as Hwf.
  pose proof (arms_unsupported r s Hno) as Hidle.
  split.
  { unfold autoUpdate_effect. rewrite Hno. simpl. by rewrite orb_true_r. }
  rewrite commit_disarms, commit_disarms_for_good by done.
  split; [done|]. split; [done|]. split; [done|].
  intros Hsome Hpayload.
  pose proof (start_requests_write r s Hsome Hpayload) as Hstart.
  unfold run, eval, emitted, exec. cbn [foldl step]. unfold copy_now, exec.
  hook_unfold. rewrite Hstart. simpl. split; [done|]. split; [|done].
  rewrite <- app_assoc. apply drop_app_length.
Qed.

Lemma support_gating_witness :
  autoUpdate_effect Sample.unsupported mount = (Normal false, mount)
  ∧ emitted (copyPhoneNumbers_start Sample.unsupported) mount
    = [Toast showCopyLoading; CopyToClipboard "555-0100,555-0199"].
Proof.
  assert (Hreach : reachable mount) by (by exists []).
  assert (Hno : isSupported (clipboard Sample.unsupported) = false)
    by reflexivity.
  destruct (support_gating mount Sample.unsupported 0%nat Hreach Hno)
    as (Heffect & _ & _ & _ & Hmanual).
  split; [exact Heffect|].
  refine (proj1 (proj2 (Hmanual _ _))).
  - vm_compute. discriminate.
  - vm_compute. discriminate.
Defined.

(** * Further properties of the hook *)

(** ** The selection *)

Section Projection.

Variable selectedIds : gset string.

(** A row is selected as often as the roster has it. *)
Lemma filter_selected_count (m : Musician) (musicians : list Musician) :
  length (filter (m =.) (filter (λ x, id x ∈ selectedIds) musicians))
  = if decide (id m ∈ selectedIds)
    then length (filter (m =.) musicians)
    else 0%nat.
Proof.
  induction musicians as [|x musicians IH].
  { by destruct (decide (id m ∈ selectedIds)). }
  rewrite (filter_cons (λ x, id x ∈ selectedIds)), (filter_cons (m =.) x musicians).
  destruct (decide (id x ∈ selectedIds)) as [Hsel | Hno].
  - rewrite filter_cons. destruct (decide (m = x)) as [-> | Hother].
    + simpl. rewrite IH. by destruct (decide (id x ∈ selectedIds)).
    + rewrite IH. by destruct (decide (id m ∈ selectedIds)).
  - rewrite IH. destruct (decide (m = x)) as [-> | Hother]; [|done].
    by destruct (decide (id x ∈ selectedIds)).
Qed.

End Projection.

(** X1: the selected musicians are the roster's musicians whose id is in
    [selectedIds], in roster order and each as often as the roster has it;
    [totalSelected] counts them; the selection of a roster made of two
    parts is the selection of the first followed by that of the second;
    ids that match nobody select nobody. *)
Theorem selection_projection
    (Options : Type) (format : list Musician -> Options -> string)
    (stats : list (option string) -> PhoneFormatStats)
    (musicians : list Musician) (selectedIds : gset string) (given : bool)
    (options : UsePhoneClipboardOptions Options) (the_clipboard : Clipboard) :
  let project := λ roster,
    selectedMusicians
      (usePhoneClipboard Options format stats roster selectedIds given
         options the_clipboard) in
  let r := usePhoneClipboard Options format stats musicians selectedIds given
             options the_clipboard in
  selectedMusicians r `sublist_of` musicians
  ∧ (∀ m, m ∈ selectedMusicians r ↔ m ∈ musicians ∧ id m ∈ selectedIds)
  ∧ (∀ m, length (filter (m =.) (selectedMusicians r))
          = if decide (id m ∈ selectedIds)
            then length (filter (m =.) musicians)
            else 0%nat)
  ∧ (∀ front back, musicians = front ++ back ->
       selectedMusicians r = project front ++ project back)
  ∧ (∀ m, project [m] = if decide (id m ∈ selectedIds) then [m] else [])
  ∧ totalSelected (phoneStats r) = length (selectedMusicians r)
  ∧ (length (selectedMusicians r) ≤ length musicians)%nat
  ∧ ((∀ m, m ∈ musicians -> id m ∉ selectedIds) <-> selectedMusicians r = []).
Proof.
  intros project r. subst project r.
  cbn [selectedMusicians phoneStats totalSelected usePhoneClipboard].
  split; [apply sublist_filter|]. split.
  { intros m. rewrite list_elem_of_filter. tauto. }
  split; [intros m; apply filter_selected_count|].
  split; [intros front back ->; apply filter_app|].
  split.
  { intros m. rewrite filter_cons, filter_nil.
    by destruct (decide (id m ∈ selectedIds)). }
  split; [done|]. split; [apply length_filter|].
  split.
  - intros Hnone. apply elem_of_nil_inv. intros m Hin.
    apply list_elem_of_filter in Hin as [Hsel Hin]. by apply (Hnone m).
  - intros Hempty m Hin Hsel.
    assert (Hm : m ∈ filter (λ musician, id musician ∈ selectedIds) musicians)
      by (apply list_elem_of_filter; done).
    rewrite Hempty in Hm. by apply elem_of_nil in Hm.
Qed.

Lemma selection_projection_witness :
  selectedMusicians Sample.both
  = selectedMusicians
      (usePhoneClipboard () Sample.format Sample.stats
         (take 2 Sample.roster) {["m1"; "m3"]} false (Sample.options true)
         (Sample.idle_clipboard true))
    ++ selectedMusicians
         (usePhoneClipboard () Sample.format Sample.stats
            (drop 2 Sample.roster) {["m1"; "m3"]} false (Sample.options true)
            (Sample.idle_clipboard true)).
Proof.
  refine (proj1 (proj2 (proj2 (proj2
            (selection_projection () Sample.format Sample.stats Sample.roster
               {["m1"; "m3"]} false (Sample.options true)
               (Sample.idle_clipboard true)))))
            (take 2 Sample.roster) (drop 2 Sample.roster) _).
  reflexivity.
Defined.

(** ** getPreview once more *)

(** Below three characters of room only the marker is left. *)
Lemma getPreview_dots (payload : string) (arg : option Z) :
  payload ≠ "" -> default 100 arg < Js.length payload -> default 100 arg < 3 ->
  getPreview payload arg = "...".
Proof.
  intros Hne Hlong Hsmall.
  rewrite getPreview_cut, js_substring_prefix by done.
  replace (Z.to_nat (Z.max 0 (Z.min (default 100 arg - 3) (Js.length payload))))
    with 0%nat by lia.
  by destruct payload.
Qed.

(** X2: a preview is never longer than [max(maxLength, 3)], it is the
    payload itself or a prefix of it followed by the ellipsis marker, and
    previewing a preview changes nothing. *)
Theorem getPreview_bounded_idempotent (payload : string) (arg : option Z) :
  Js.length (getPreview payload arg) <= Z.max (default 100 arg) 3
  ∧ (getPreview payload arg = payload
     ∨ ∃ k, (k < String.length payload)%nat
            ∧ getPreview payload arg = String.substring 0 k payload +:+ "...")
  ∧ getPreview (getPreview payload arg) arg = getPreview payload arg.
Proof.
  destruct (decide (payload = "")) as [-> | Hne].
  { rewrite getPreview_empty. unfold Js.length. simpl.
    split; [lia|]. split; [by left | done]. }
  destruct (decide (Js.length payload <= default 100 arg)) as [Hfit | Hlong].
  { rewrite getPreview_fits by done.
    split; [lia|]. split; [by left | by apply getPreview_fits]. }
  assert (Hlen := getPreview_cut_length payload arg Hne ltac:(lia)).
  split; [lia|]. split.
  - right.
    exists (Z.to_nat (Z.max 0 (Z.min (default 100 arg - 3) (Js.length payload)))).
    split; [unfold Js.length in *; destruct payload; [done | simpl in *; lia]|].
    rewrite getPreview_cut by (done || lia). by rewrite js_substring_prefix.
  - destruct (decide (3 <= default 100 arg)) as [Hbig | Hsmall].
    + apply getPreview_fits. lia.
    + rewrite (getPreview_dots payload) by (done || lia).
      apply getPreview_dots; [done | unfold Js.length; simpl; lia | lia].
Qed.

(** ** copyPhoneNumbers: the remaining paths *)

Lemma start_no_payload (r : Render) (s : Hook) :
  selectedMusicians r ≠ [] -> formattedPhoneNumbers r = "" ->
  copyPhoneNumbers_start r s
  = (Normal (Some {| success := false;
                     message := "No valid phone numbers found in selection";
                     phoneCount := 0 |}),
     with_trace
       (trace s ++ [Toast (showCopyError "No valid phone numbers found"
                             "Selected musicians don't have valid phone numbers")])
       s).
Proof.
  intros Hsome Hnone. unfold copyPhoneNumbers_start.
  destruct (selectedMusicians r); [done|]. by rewrite Hnone.
Qed.

(** X3: with someone selected but an empty formatted string,
    [copyPhoneNumbers] resolves to the no-valid-phone failure, shows the one
    matching error toast, and neither calls the writer nor waits for it. *)
Theorem copyPhoneNumbers_no_valid_phone
    (r : Render) (c : Settlement) (s : Hook) :
  selectedMusicians r ≠ [] -> formattedPhoneNumbers r = "" ->
  eval (copyPhoneNumbers r c) s
  = Normal {| success := false;
              message := "No valid phone numbers found in selection";
              phoneCount := 0 |}
  ∧ emitted (copyPhoneNumbers r c) s
    = [Toast (showCopyError "No valid phone numbers found"
                "Selected musicians don't have valid phone numbers")]
  ∧ inflight (run s [CopyNow r]) = inflight s
  ∧ trace (run s [CopyNow r]) = trace (exec (copyPhoneNumbers r c) s).
Proof.
  intros Hsome Hnone.
  pose proof (start_no_payload r s Hsome Hnone) as Hstart.
  unfold copyPhoneNumbers, run, step, copy_now. hook_simpl.
  rewrite Hstart. simpl. split; [done|]. split; [|done].
  apply drop_app_length.
Qed.

Lemma copyPhoneNumbers_no_valid_phone_witness :
  eval (copyPhoneNumbers Scenario.no_phone Sample.written) mount
  = Normal {| success := false;
              message := "No valid phone numbers found in selection";
              phoneCount := 0 |}.
Proof.
  refine (proj1 (copyPhoneNumbers_no_valid_phone
                   Scenario.no_phone Sample.written mount _ _)).
  - vm_compute. discriminate.
  - vm_compute. reflexivity.
Defined.

(** X4: when the writer returns [false], [copyPhoneNumbers] resolves to a
    failure with no phones counted, its message being [clipboard.error] or,
    when that is missing or empty, the fixed fallback, so never empty; after
    the loading toast exactly one toast follows, chosen by the kind of
    [clipboard.detailedError]; the selection is not cleared. *)
Theorem copyPhoneNumbers_writer_fails
    (r : Render) (after : Clipboard) (s : Hook) :
  selectedMusicians r ≠ [] -> formattedPhoneNumbers r ≠ "" ->
  let c := {| outcome := Returned false; seen := after |} in
  eval (copyPhoneNumbers r c) s
  = Normal {| success := false;
              message := Js.or_else (error after) "Failed to copy to clipboard";
              phoneCount := 0 |}
  ∧ Js.or_else (error after) "Failed to copy to clipboard" ≠ ""
  ∧ emitted (copyPhoneNumbers r c) s
    = [Toast showCopyLoading; CopyToClipboard (formattedPhoneNumbers r);
       Toast (failure_toast after)]
  ∧ (failure_toast after = showPermissionDenied
     <-> ∃ e, detailedError after = Some e ∧ err_type e = PERMISSION_DENIED)
  ∧ (failure_toast after = showNotSupported
     <-> ∃ e, detailedError after = Some e ∧ err_type e = NOT_SUPPORTED).
Proof.
  intros Hsome Hpayload c.
  pose proof (start_requests_write r s Hsome Hpayload) as Hstart.
  split; [|split; [|split]].
  - unfold copyPhoneNumbers. hook_unfold. rewrite Hstart. subst c.
    unfold copyPhoneNumbers_settle. hook_simpl.
    by destruct (detailedError after) as [[[] ? ?]|].
  - unfold Js.or_else. destruct (error after) as [[|ch msg]|]; done.
  - unfold copyPhoneNumbers. hook_unfold. rewrite Hstart. subst c.
    unfold copyPhoneNumbers_settle, failure_toast. hook_simpl.
    destruct (detailedError after) as [[[] ? ?]|]; simpl;
      rewrite <- ?app_assoc, drop_app_length; done.
  - unfold failure_toast.
    destruct (detailedError after) as [[[] ? ?]|]; simpl;
      split; split; try done; try (intros _; by eexists);
      intros (? & ? & ?); simplify_eq/=.
Qed.

Lemma copyPhoneNumbers_writer_fails_witness :
  eval (copyPhoneNumbers Sample.both Sample.denied_by_false) mount
  = Normal {| success := false; message := "Clipboard permission denied";
              phoneCount := 0 |}
  ∧ toasts (emitted (copyPhoneNumbers Sample.both Scenario.gave_up) mount)
    = [showCopyLoading; showCopyError "Copy operation failed" "Please try again"].
Proof.
  split.
  - refine (proj1 (copyPhoneNumbers_writer_fails Sample.both
                     Sample.after_denial mount _ _)).
    + vm_compute. discriminate.
    + vm_compute. discriminate.
  - refine (f_equal toasts
              (proj1 (proj2 (proj2 (copyPhoneNumbers_writer_fails Sample.both
                 (Sample.idle_clipboard true) mount _ _))))).
    + vm_compute. discriminate.
    + vm_compute. discriminate.
Defined.

(** X5: whatever the selection, the payload and the outcome of the write,
    one call of [copyPhoneNumbers] resolves (it never rejects) and does one
    of two things.  Either a precondition fails, and all it does is show
    one toast.  Or it shows the loading toast, then calls the writer, once,
    with the formatted payload, then shows one final toast, and after that
    at most calls [clearSelection].  The timer, its ref, [lastUpdatedRef]
    and the awaited writes are not touched. *)
Theorem copyPhoneNumbers_footprint (r : Render) (c : Settlement) (s : Hook) :
  let tr := emitted (copyPhoneNumbers r c) s in
  (∃ result, eval (copyPhoneNumbers r c) s = Normal result)
  ∧ (((selectedMusicians r = [] ∨ formattedPhoneNumbers r = "")
      ∧ ∃ final, final ≠ showCopyLoading ∧ tr = [Toast final])
     ∨ (selectedMusicians r ≠ [] ∧ formattedPhoneNumbers r ≠ ""
        ∧ ∃ final,
            final ≠ showCopyLoading
            ∧ (tr = [Toast showCopyLoading;
                     CopyToClipboard (formattedPhoneNumbers r);
                     Toast final]
               ∨ tr = [Toast showCopyLoading;
                       CopyToClipboard (formattedPhoneNumbers r);
                       Toast final; ClearSelection])))
  ∧ timers_untouched s (exec (copyPhoneNumbers r c) s)
  ∧ lastUpdatedRef (exec (copyPhoneNumbers r c) s) = lastUpdatedRef s
  ∧ inflight (exec (copyPhoneNumbers r c) s) = inflight s.
Proof.
  intros tr. subst tr.
  destruct (decide (selectedMusicians r = [])) as [Hnone | Hsome].
  { unfold copyPhoneNumbers. hook_unfold.
    rewrite (start_empty_selection r s Hnone). simpl. rewrite drop_app_length.
    split; [by eexists|]. split; [|done].
    left. split; [by left|]. eexists. split; [|reflexivity]. done. }
  destruct (decide (formattedPhoneNumbers r = "")) as [Hempty | Hpayload].
  { unfold copyPhoneNumbers. hook_unfold.
    rewrite (start_no_payload r s Hsome Hempty). simpl. rewrite drop_app_length.
    split; [by eexists|]. split; [|done].
    left. split; [by right|]. eexists. split; [|reflexivity]. done. }
  unfold copyPhoneNumbers. hook_unfold.
  rewrite (start_requests_write r s Hsome Hpayload).
  unfold copyPhoneNumbers_settle. hook_simpl.
  destruct c as [[[]|e] after]; simpl;
    [destruct (autoClearSelection r && clearSelection r)
    |destruct (detailedError after) as [[[] ? ?]|]
    |];
    simpl; rewrite <- ?app_assoc, drop_app_length; simpl;
    (split; [by eexists|]); (split; [|done]);
    right; (split; [done|]); (split; [done|]);
    eexists; (split; [|first [by left | by right]]); done.
Qed.

(** The last branch point: a call that got to the writer. *)
Lemma copyPhoneNumbers_after_start (r : Render) (c : Settlement) (s : Hook) :
  selectedMusicians r ≠ [] -> formattedPhoneNumbers r ≠ "" ->
  copyPhoneNumbers r c s
  = copyPhoneNumbers_settle r c
      (with_trace
         ((trace s ++ [Toast showCopyLoading])
            ++ [CopyToClipboard (formattedPhoneNumbers r)]) s).
Proof.
  intros Hsome Hpayload. unfold copyPhoneNumbers. hook_unfold.
  by rewrite (start_requests_write r s Hsome Hpayload).
Qed.

(** Decides a membership in an explicit trace. *)
Ltac in_trace :=
  rewrite ?elem_of_cons, ?elem_of_nil; intuition congruence.

(** X6: [clearSelection] is called exactly when the write succeeded, the
    option [autoClearSelection] is on and the callback was given; it is then
    the last thing the call does, after the success toast. *)
Theorem clearSelection_only_on_success (r : Render) (c : Settlement) (s : Hook) :
  let tr := emitted (copyPhoneNumbers r c) s in
  let cleared :=
    selectedMusicians r ≠ [] ∧ formattedPhoneNumbers r ≠ ""
    ∧ outcome c = Returned true
    ∧ autoClearSelection r = true ∧ clearSelection r = true in
  (ClearSelection ∈ tr <-> cleared)
  ∧ (cleared ->
     tr = [Toast showCopyLoading; CopyToClipboard (formattedPhoneNumbers r);
           Toast (showCopySuccess (validPhones (phoneStats r))
                    (formattedPhoneNumbers r));
           ClearSelection]).
Proof.
  intros tr cleared. subst tr cleared.
  destruct (decide (selectedMusicians r = [])) as [Hnone | Hsome].
  { unfold copyPhoneNumbers. hook_unfold.
    rewrite (start_empty_selection r s Hnone). simpl. rewrite drop_app_length.
    split; [in_trace | tauto]. }
  destruct (decide (formattedPhoneNumbers r = "")) as [Hempty | Hpayload].
  { unfold copyPhoneNumbers. hook_unfold.
    rewrite (start_no_payload r s Hsome Hempty). simpl. rewrite drop_app_length.
    split; [in_trace | tauto]. }
  hook_unfold. rewrite copyPhoneNumbers_after_start by done.
  unfold copyPhoneNumbers_settle. hook_simpl.
  destruct c as [[[]|e] after]; simpl;
    [destruct (autoClearSelection r), (clearSelection r)
    |destruct (detailedError after) as [[[] ? ?]|]
    |];
    simpl; rewrite <- ?app_assoc, drop_app_length; simpl;
    (split; [in_trace | intuition congruence]).
Qed.

Lemma clearSelection_only_on_success_witness :
  emitted (copyPhoneNumbers Scenario.manual_only Sample.written) mount
  = [Toast showCopyLoading; CopyToClipboard "555-0100,555-0199";
     Toast (showCopySuccess 2 "555-0100,555-0199"); ClearSelection].
Proof.
  refine (proj2 (clearSelection_only_on_success
                   Scenario.manual_only Sample.written mount) _).
  repeat split; vm_compute; discriminate.
Defined.

(** X7: the result of a call tells what happened: [success] is true exactly
    when both preconditions passed and the writer returned [true]; a
    successful result carries the count of valid phones and the configured
    success message for that count; every failure carries a count of 0. *)
Theorem copyPhoneNumbers_result
    (r : Render) (c : Settlement) (s : Hook) (result : CopyResult) :
  eval (copyPhoneNumbers r c) s = Normal result ->
  (success result = true
   <-> selectedMusicians r ≠ [] ∧ formattedPhoneNumbers r ≠ ""
       ∧ outcome c = Returned true)
  ∧ (success result = true ->
     phoneCount result = validPhones (phoneStats r)
     ∧ message result = successMessage r (validPhones (phoneStats r)))
  ∧ (success result = false -> phoneCount result = 0%nat).
Proof.
  destruct (decide (selectedMusicians r = [])) as [Hnone | Hsome].
  { unfold copyPhoneNumbers. hook_unfold.
    rewrite (start_empty_selection r s Hnone). simpl.
    intros [= <-]. simpl. intuition congruence. }
  destruct (decide (formattedPhoneNumbers r = "")) as [Hempty | Hpayload].
  { unfold copyPhoneNumbers. hook_unfold.
    rewrite (start_no_payload r s Hsome Hempty). simpl.
    intros [= <-]. simpl. intuition congruence. }
  hook_unfold. rewrite copyPhoneNumbers_after_start by done.
  unfold copyPhoneNumbers_settle. hook_simpl.
  destruct c as [[[]|e] after]; simpl;
    [destruct (autoClearSelection r && clearSelection r)
    |destruct (detailedError after) as [[[] ? ?]|]
    |];
    simpl; intros [= <-]; simpl; intuition congruence.
Qed.

Lemma copyPhoneNumbers_result_witness :
  phoneCount {| success := true;
                message := "Copied 2 phone numbers to clipboard";
                phoneCount := 2 |}
  = validPhones (phoneStats Sample.both).
Proof.
  refine (proj1 (proj1 (proj2 (copyPhoneNumbers_result
            Sample.both Sample.written mount _ _)) _)).
  - vm_compute. reflexivity.
  - reflexivity.
Defined.

(** ** The effect: when it arms, and what cancels *)

Section Arming.

Lemma arms_iff (r : Render) (s : Hook) :
  arms s r = true
  <-> autoUpdateClipboard r = true
      ∧ isSupported (clipboard r) = true
      ∧ autoUpdateMinSelection r <= Z.of_nat (length (selectedMusicians r))
      ∧ formattedPhoneNumbers r ≠ ""
      ∧ validPhones (phoneStats r) ≠ 0%nat
      ∧ formattedPhoneNumbers r ≠ lastUpdatedRef s.
Proof.
  unfold arms.
  rewrite !andb_true_iff, !negb_true_iff, Z.ltb_ge, !bool_decide_eq_false.
  destruct (formattedPhoneNumbers r); simpl; intuition congruence.
Qed.

(** Arming looks at the instance through [lastUpdatedRef] only. *)
Lemma arms_ext (r : Render) (s s' : Hook) :
  lastUpdatedRef s' = lastUpdatedRef s -> arms s' r = arms s r.
Proof. intros Hsame. unfold arms. by rewrite Hsame. Qed.

Lemma reachable_run (s : Hook) (es : list Event) :
  reachable s -> reachable (run s es).
Proof. intros [es0 ->]. exists (es0 ++ es). by rewrite run_app. Qed.


(** An arming commit, then the time its timer runs: the write is
    requested. *)
Lemma commit_then_due (r : Render) (d : nat) (s : Hook) :
  wf s -> arms s r = true ->
  (timer_delay (autoUpdateDebounce r) ≤ d)%nat ->
  run s [Commit r; Elapse d]
  = fired [{| timer_id := next_timer s;
              due := clock s + timer_delay (autoUpdateDebounce r);
              armed_by := r |}]
      (with_timers (Pos.succ (next_timer s)) []
         (with_clock (clock s + d) (armed r s))).
Proof.
  intros Hwf Harms Hlate.
  pose proof (timer_delay_pos (autoUpdateDebounce r)) as Hpos.
  unfold run. cbn [foldl step].
  rewrite exec_commit, Harms by done. unfold exec.
  by rewrite (elapse_fires d _ (armed r s) eq_refl) by (simpl; lia).
Qed.

(** The same after the configured delay, which is never shorter. *)
Lemma commit_then_fire (r : Render) (d : nat) (s : Hook) :
  wf s -> arms s r = true ->
  (0 < d)%nat -> (Z.to_nat (autoUpdateDebounce r) ≤ d)%nat ->
  run s [Commit r; Elapse d]
  = fired [{| timer_id := next_timer s;
              due := clock s + timer_delay (autoUpdateDebounce r);
              armed_by := r |}]
      (with_timers (Pos.succ (next_timer s)) []
         (with_clock (clock s + d) (armed r s))).
Proof.
  intros Hwf Harms Hpos Hlate.
  apply commit_then_due; [done | done | by apply timer_delay_by].
Qed.

End Arming.



(** X9: the cleanup React runs on unmount cancels the pending timer, so no
    automatic write follows however long one waits; writes that are already
    awaited stay awaited, and [lastUpdatedRef] keeps its value. *)
Theorem unmount_cancels (s : Hook) (dt : nat) :
  reachable s ->
  timers (run s [Unmount]) = []
  ∧ trace (run s [Unmount; Elapse dt]) = trace s
  ∧ inflight (run s [Unmount; Elapse dt]) = inflight s
  ∧ lastUpdatedRef (run s [Unmount; Elapse dt]) = lastUpdatedRef s.
Proof.
  intros Hreach. pose proof (reachable_wf s Hreach) as (Hone & Hcov & _).
  unfold run. cbn [foldl step]. unfold exec.
  rewrite run_cleanup_spec by done. cbn [snd].
  by rewrite elapse_no_timers.
Qed.

Lemma unmount_cancels_witness :
  length (timers Scenario.waiting) = 1%nat
  ∧ timers (run Scenario.waiting [Unmount]) = []
  ∧ trace (run Scenario.waiting [Unmount; Elapse 1000]) = [].
Proof.
  assert (Hreach : reachable Scenario.waiting) by (by eexists).
  destruct (unmount_cancels Scenario.waiting 1000 Hreach) as (Hnone & Htrace & _).
  split; [vm_compute; reflexivity|]. exact (conj Hnone Htrace).
Defined.

(** ** Bursts *)

Section Bursts.


End Bursts.



(** ** Automatic writes that settle *)

(** Brings nested state updates to one record, innermost first. *)
Ltac hook_norm :=
  cbv [armed disarmed fired with_debounceTimeoutRef with_lastUpdatedRef
       with_cleanup with_clock with_timers with_inflight with_trace
       with_results debounceTimeoutRef lastUpdatedRef cleanup clock
       next_timer timers inflight trace results fmap list_fmap
       armed_by origin closure];
  rewrite ?app_nil_r.

Section AutoRound.

(** The newest awaited write is an automatic one and settles. *)
Lemma settle_newest_auto
    (r : Render) (c : Settlement) (before : list Pending) (s : Hook) :
  inflight s = before ++ [{| origin := Automatic; closure := r |}] ->
  exec (settle (length before) c) s
  = exec (autoUpdate_settle r c) (with_inflight before s).
Proof.
  intros Hlast. unfold settle, exec. hook_unfold. rewrite Hlast.
  rewrite list_lookup_middle by done. cbn [origin closure].
  rewrite delete_middle, app_nil_r. done.
Qed.

(** An arming commit, its delay, and a writer that returns [true]. *)
Lemma auto_round (r : Render) (d : nat) (after : Clipboard) (s : Hook) :
  wf s -> arms s r = true ->
  (0 < d)%nat -> (Z.to_nat (autoUpdateDebounce r) ≤ d)%nat ->
  run s [Commit r; Elapse d;
         Settle (length (inflight s))
           {| outcome := Returned true; seen := after |}]
  = with_trace
      (trace s
         ++ [CopyToClipboard (formattedPhoneNumbers r);
             Toast (showToast
                      (copySuccess (validPhones (phoneStats r))
                         (formattedPhoneNumbers r)) 2000 "fade")])
      (with_lastUpdatedRef (formattedPhoneNumbers r)
         (with_timers (Pos.succ (next_timer s)) []
            (with_clock (clock s + d) (armed r s)))).
Proof.
  intros Hwf Harms Hpos Hlate.
  change [Commit r; Elapse d; Settle (length (inflight s))
                                {| outcome := Returned true; seen := after |}]
    with ([Commit r; Elapse d]
            ++ [Settle (length (inflight s))
                  {| outcome := Returned true; seen := after |}]).
  rewrite run_app, commit_then_fire by done.
  unfold run. cbn [foldl step].
  rewrite (settle_newest_auto r _ (inflight s)) by done.
  unfold exec. rewrite autoUpdate_settle_success. cbn [snd].
  destruct s. hook_norm. by rewrite <- app_assoc.
Qed.

End AutoRound.

(** X11: an automatic write that succeeds requests the write once, then
    stores the written string in [lastUpdatedRef] and shows the short fading
    success toast for the render that armed the timer; committing the same
    render again afterwards arms nothing and writes nothing. *)
Theorem auto_write_succeeds
    (s : Hook) (r : Render) (d : nat) (after : Clipboard) :
  reachable s -> arms s r = true ->
  (0 < d)%nat -> (Z.to_nat (autoUpdateDebounce r) ≤ d)%nat ->
  let s' := run s [Commit r; Elapse d;
                   Settle (length (inflight s))
                     {| outcome := Returned true; seen := after |}] in
  lastUpdatedRef s' = formattedPhoneNumbers r
  ∧ trace s'
    = trace s
        ++ [CopyToClipboard (formattedPhoneNumbers r);
            Toast (showToast
                     (copySuccess (validPhones (phoneStats r))
                        (formattedPhoneNumbers r)) 2000 "fade")]
  ∧ inflight s' = inflight s
  ∧ timers s' = []
  ∧ ∀ dt, trace (run s' [Commit r; Elapse dt]) = trace s'.
Proof.
  intros Hreach Harms Hpos Hlate s'.
  pose proof (reachable_wf s Hreach) as Hwf.
  assert (Hreach' : reachable s') by by apply reachable_run.
  pose proof (reachable_wf s' Hreach') as Hwf'.
  assert (Hs' := auto_round r d after s Hwf Harms Hpos Hlate). fold s' in Hs'.
  assert (Hlast : lastUpdatedRef s' = formattedPhoneNumbers r) by by rewrite Hs'.
  split; [done|]. split; [by rewrite Hs'|]. split; [by rewrite Hs'|].
  split; [by rewrite Hs'|].
  intros dt. rewrite commit_disarms_for_good; [done | done |].
  by apply arms_synced.
Qed.

Lemma auto_write_succeeds_witness :
  lastUpdatedRef (run mount [Commit Sample.both; Elapse 300;
                             Settle 0 Sample.written])
  = "555-0100,555-0199".
Proof.
  assert (Hreach : reachable mount) by (by exists []).
  refine (proj1 (auto_write_succeeds mount Sample.both 300
                   (Sample.idle_clipboard true) Hreach _ _ _)).
  - vm_compute. reflexivity.
  - lia.
  - vm_compute. lia.
Defined.

(** X12: a write that is already awaited is not cancelled by the cleanup:
    when the component unmounts after the timer has fired and the write
    then succeeds, [lastUpdatedRef] is still set and the success toast is
    still shown. *)
Theorem inflight_survives_unmount
    (s : Hook) (r : Render) (d : nat) (after : Clipboard) :
  reachable s -> arms s r = true ->
  (0 < d)%nat -> (Z.to_nat (autoUpdateDebounce r) ≤ d)%nat ->
  let s' := run s [Commit r; Elapse d; Unmount;
                   Settle (length (inflight s))
                     {| outcome := Returned true; seen := after |}] in
  lastUpdatedRef s' = formattedPhoneNumbers r
  ∧ toasts (trace s')
    = toasts (trace s)
        ++ [showToast (copySuccess (validPhones (phoneStats r))
                         (formattedPhoneNumbers r)) 2000 "fade"].
Proof.
  intros Hreach Harms Hpos Hlate s'.
  pose proof (reachable_wf s Hreach) as Hwf.
  assert (Hs' : s'
    = with_trace
        (trace s
           ++ [CopyToClipboard (formattedPhoneNumbers r);
               Toast (showToast
                        (copySuccess (validPhones (phoneStats r))
                           (formattedPhoneNumbers r)) 2000 "fade")])
        (with_lastUpdatedRef (formattedPhoneNumbers r)
           (disarmed
              (with_timers (Pos.succ (next_timer s)) []
                 (with_clock (clock s + d) (armed r s)))))).
  { subst s'.
    change [Commit r; Elapse d; Unmount;
            Settle (length (inflight s))
              {| outcome := Returned true; seen := after |}]
      with ([Commit r; Elapse d]
              ++ [Unmount]
              ++ [Settle (length (inflight s))
                    {| outcome := Returned true; seen := after |}]).
    rewrite run_app.
    assert (Hwf1 : wf (run s [Commit r; Elapse d])) by by apply wf_run.
    rewrite commit_then_fire in * by done.
    destruct Hwf1 as (Hone & Hcov & _).
    rewrite run_app.
    match goal with
    | |- run (run ?s1 [Unmount]) _ = _ =>
        assert (Hun : run s1 [Unmount] = disarmed s1)
          by (unfold run; cbn [foldl step]; unfold exec;
              by rewrite run_cleanup_spec)
    end.
    rewrite Hun. unfold run. cbn [foldl step].
    rewrite (settle_newest_auto r _ (inflight s)) by done.
    unfold exec. rewrite autoUpdate_settle_success. cbn [snd].
    destruct s. hook_norm. by rewrite <- app_assoc. }
  rewrite Hs'. hook_norm. split; [done|].
  rewrite toasts_app. done.
Qed.

Lemma inflight_survives_unmount_witness :
  lastUpdatedRef (run mount [Commit Sample.both; Elapse 300; Unmount;
                             Settle 0 Sample.written])
  = "555-0100,555-0199".
Proof.
  assert (Hreach : reachable mount) by (by exists []).
  refine (proj1 (inflight_survives_unmount mount Sample.both 300
                   (Sample.idle_clipboard true) Hreach _ _ _)).
  - vm_compute. reflexivity.
  - lia.
  - vm_compute. lia.
Defined.

(** ** Manual copies next to the timer *)

Section ManualBesideTimer.

Variable r : Render.
Hypothesis Hsome : selectedMusicians r ≠ [].
Hypothesis Hpayload : formattedPhoneNumbers r ≠ "".

(** A successful manual copy, seen from the timer's side. *)
Lemma manual_round (after : Clipboard) (s : Hook) :
  let s' := run s [CopyNow r;
                   Settle (length (inflight s))
                     {| outcome := Returned true; seen := after |}] in
  timers_untouched s s'
  ∧ lastUpdatedRef s' = lastUpdatedRef s
  ∧ inflight s' = inflight s
  ∧ writes (trace s') = writes (trace s) ++ [formattedPhoneNumbers r].
Proof.
  pose proof (start_requests_write r s Hsome Hpayload) as Hstart.
  unfold run, step, copy_now, settle, timers_untouched. hook_simpl.
  rewrite Hstart. simpl.
  rewrite list_lookup_middle by done. simpl.
  unfold copyPhoneNumbers_settle. hook_simpl.
  destruct (autoClearSelection r && clearSelection r); simpl;
    rewrite delete_middle, app_nil_r, !writes_app; simpl;
    rewrite ?app_nil_r; done.
Qed.

End ManualBesideTimer.

(** X13: a manual copy does not feed the automatic one.  With a timer
    pending for a render, copying that same render by hand, successfully,
    leaves the timer and [lastUpdatedRef] as they are, so the timer still
    fires and the same string is written a second time. *)
Theorem manual_copy_does_not_sync
    (s : Hook) (r : Render) (d : nat) (after : Clipboard) :
  reachable s -> arms s r = true -> selectedMusicians r ≠ [] ->
  (0 < d)%nat -> (Z.to_nat (autoUpdateDebounce r) ≤ d)%nat ->
  let copied := run s [Commit r; CopyNow r;
                       Settle (length (inflight s))
                         {| outcome := Returned true; seen := after |}] in
  timers copied = timers (run s [Commit r])
  ∧ lastUpdatedRef copied = lastUpdatedRef s
  ∧ writes (trace (run copied [Elapse d]))
    = writes (trace s) ++ [formattedPhoneNumbers r; formattedPhoneNumbers r].
Proof.
  intros Hreach Harms Hsome Hpos Hlate copied.
  pose proof (reachable_wf s Hreach) as Hwf.
  pose proof (arms_payload r s Harms) as Hpayload.
  assert (Hcommit : run s [Commit r] = armed r s).
  { unfold run. cbn [foldl step]. by rewrite exec_commit, Harms. }
  assert (Hcopied : copied
    = run (armed r s)
        [CopyNow r; Settle (length (inflight (armed r s)))
                      {| outcome := Returned true; seen := after |}]).
  { subst copied.
    change [Commit r; CopyNow r;
            Settle (length (inflight s))
              {| outcome := Returned true; seen := after |}]
      with ([Commit r]
              ++ [CopyNow r;
                  Settle (length (inflight s))
                    {| outcome := Returned true; seen := after |}]).
    by rewrite run_app, Hcommit. }
  destruct (manual_round r Hsome Hpayload after (armed r s))
    as ((_ & _ & Hclock & _ & Htimers) & Hlast & _ & Hwrites).
  rewrite <- Hcopied in *. rewrite Hcommit.
  split; [done|]. split; [done|].
  unfold run at 1. cbn [foldl step]. unfold exec.
  pose proof (timer_delay_by (autoUpdateDebounce r) d Hpos Hlate) as Hdue.
  rewrite (elapse_fires d _ copied Htimers) by (rewrite ?Hclock; simpl; lia).
  simpl. rewrite writes_app, Hwrites, <- app_assoc. done.
Qed.

Lemma manual_copy_does_not_sync_witness :
  writes (trace (run (run mount [Commit Sample.both; CopyNow Sample.both;
                                 Settle 0 Sample.written])
                   [Elapse 300]))
  = [formattedPhoneNumbers Sample.both; formattedPhoneNumbers Sample.both].
Proof.
  assert (Hreach : reachable mount) by (by exists []).
  refine (proj2 (proj2 (manual_copy_does_not_sync mount Sample.both 300
                          (Sample.idle_clipboard true) Hreach _ _ _ _))).
  - vm_compute. reflexivity.
  - vm_compute. discriminate.
  - lia.
  - vm_compute. lia.
Defined.

(** X14: with a minimum selection of at least one (the default), whenever
    the effect would arm for a render, a manual copy of that render passes
    both of its preconditions and reaches the writer, and [canCopy] is true
    unless a write is loading. *)
Theorem arms_implies_copyable (s : Hook) (r : Render) :
  arms s r = true -> 1 <= autoUpdateMinSelection r ->
  selectedMusicians r ≠ [] ∧ formattedPhoneNumbers r ≠ ""
  ∧ eval (copyPhoneNumbers_start r) s = Normal None
  ∧ canCopy r = negb (isLoading (clipboard r)).
Proof.
  intros Harms Hmin. apply arms_iff in Harms
    as (_ & _ & Hlen & Hpayload & Hvalid & _).
  assert (Hsome : selectedMusicians r ≠ [])
    by (intros Hnone; rewrite Hnone in Hlen; simpl in Hlen; lia).
  split; [done|]. split; [done|]. split.
  - unfold eval. by rewrite start_requests_write.
  - unfold canCopy.
    rewrite !bool_decide_eq_true_2; [done | lia |].
    destruct (selectedMusicians r); [done | simpl; lia].
Qed.

Lemma arms_implies_copyable_witness : canCopy Sample.both = true.
Proof.
  refine (proj2 (proj2 (proj2 (arms_implies_copyable mount Sample.both _ _)))).
  - vm_compute. reflexivity.
  - vm_compute. discriminate.
Defined.

(** ** Nothing automatic while auto-update is off *)

Section Quiet.

Lemma passive_step (e : Event) (s : Hook) :
  wf s -> timers s = [] -> passive e = true ->
  timers (exec (step e) s) = []
  ∧ trace (exec (step e) s) = trace s
  ∧ inflight (exec (step e) s) = inflight s
  ∧ lastUpdatedRef (exec (step e) s) = lastUpdatedRef s.
Proof.
  intros Hwf Hnone Hpassive. pose proof Hwf as (Hone & Hcov & _).
  destruct e as [r | | dt | r | k c]; try done; cbn [step].
  - assert (Hidle : arms s r = false).
    { unfold arms. simpl in Hpassive.
      destruct (autoUpdateClipboard r), (isSupported (clipboard r)); done. }
    by rewrite exec_commit, Hidle.
  - unfold exec. by rewrite run_cleanup_spec.
  - unfold exec. by rewrite elapse_no_timers.
Qed.

End Quiet.

(** X15: as long as every committed render has auto-update off (its
    default) or no clipboard support, no sequence of commits, cleanups and
    waiting ever requests a write, shows a toast or touches
    [lastUpdatedRef]: the trace stays as it was. *)
Theorem quiet_when_passive (s : Hook) (es : list Event) :
  reachable s -> timers s = [] ->
  Forall (λ e, passive e = true) es ->
  trace (run s es) = trace s
  ∧ timers (run s es) = []
  ∧ inflight (run s es) = inflight s
  ∧ lastUpdatedRef (run s es) = lastUpdatedRef s.
Proof.
  intros Hreach. pose proof (reachable_wf s Hreach) as Hwf. clear Hreach.
  revert s Hwf. induction es as [|e es IH]; intros s Hwf Hnone Hall; [done|].
  apply Forall_cons in Hall as [Hpassive Hrest].
  destruct (passive_step e s Hwf Hnone Hpassive)
    as (Hnone' & Htrace & Hwaiting & Hlast).
  change (run s (e :: es)) with (run (exec (step e) s) es).
  destruct (IH (exec (step e) s)) as (-> & -> & -> & ->);
    [by apply wf_step | done | done | done].
Qed.

Lemma quiet_when_passive_witness :
  trace (run mount [Commit Scenario.manual_only; Elapse 500;
                    Commit Sample.unsupported; Elapse 500; Unmount]) = [].
Proof.
  assert (Hreach : reachable mount) by (by exists []).
  refine (proj1 (quiet_when_passive mount
                   [Commit Scenario.manual_only; Elapse 500;
                    Commit Sample.unsupported; Elapse 500; Unmount]
                   Hreach eq_refl _)).
  repeat constructor.
Defined.

(** ** Automatic writes that fail *)

(** X16: an automatic write that fails, by a [false] or by a throw, is not
    remembered: the write was requested once, [lastUpdatedRef] keeps its
    value, and the next commit of the same render arms the timer again. *)
Theorem failed_auto_write_rearms
    (s : Hook) (r : Render) (d : nat) (c : Settlement) :
  reachable s -> arms s r = true ->
  (0 < d)%nat -> (Z.to_nat (autoUpdateDebounce r) ≤ d)%nat ->
  failed (outcome c) = true ->
  let s' := run s [Commit r; Elapse d; Settle (length (inflight s)) c] in
  writes (trace s') = writes (trace s) ++ [formattedPhoneNumbers r]
  ∧ lastUpdatedRef s' = lastUpdatedRef s
  ∧ timers s' = []
  ∧ timers (run s' [Commit r])
    = [{| timer_id := next_timer s';
          due := clock s' + timer_delay (autoUpdateDebounce r);
          armed_by := r |}].
Proof.
  intros Hreach Harms Hpos Hlate Hfailed s'.
  pose proof (reachable_wf s Hreach) as Hwf.
  assert (Hwf' : wf s') by by apply wf_run.
  set (base := with_trace
                 (trace s ++ [CopyToClipboard (formattedPhoneNumbers r)])
                 (with_timers (Pos.succ (next_timer s)) []
                    (with_clock (clock s + d) (armed r s)))).
  assert (Hs' : s' = exec (autoUpdate_settle r c) base).
  { subst s' base.
    change [Commit r; Elapse d; Settle (length (inflight s)) c]
      with ([Commit r; Elapse d] ++ [Settle (length (inflight s)) c]).
    rewrite run_app, commit_then_fire by done.
    unfold run. cbn [foldl step].
    rewrite (settle_newest_auto r _ (inflight s)) by done.
    f_equal. }
  assert (Hlast : lastUpdatedRef s' = lastUpdatedRef s).
  { rewrite Hs', autoUpdate_settle_lastUpdatedRef.
    by destruct c as [[[]|e] after]. }
  assert (Hshape : timers s' = []
                   ∧ writes (trace s')
                     = writes (trace s) ++ [formattedPhoneNumbers r]).
  { rewrite Hs'. destruct c as [[[]|e] after]; [done| |].
    - unfold exec. rewrite autoUpdate_settle_false. subst base. simpl.
      by rewrite writes_app.
    - unfold autoUpdate_settle. subst base. hook_simpl.
      destruct (detailedError after) as [[[] ? ?]|]; simpl;
        rewrite !writes_app; simpl; by rewrite ?app_nil_r. }
  destruct Hshape as [Hnone Hwrites].
  split; [done|]. split; [done|]. split; [done|].
  unfold run. cbn [foldl step].
  by rewrite exec_commit, (arms_ext r s s'), Harms.
Qed.

Lemma failed_auto_write_rearms_witness :
  let s' := run mount [Commit Sample.both; Elapse 300;
                       Settle 0 Sample.denied_by_throw] in
  lastUpdatedRef s' = "" ∧ timers s' = [].
Proof.
  assert (Hreach : reachable mount) by (by exists []).
  destruct (failed_auto_write_rearms mount Sample.both 300
              Sample.denied_by_throw Hreach)
    as (_ & Hlast & Hnone & _).
  - vm_compute. reflexivity.
  - lia.
  - vm_compute. lia.
  - reflexivity.
  - exact (conj Hlast Hnone).
Defined.
